(** * Stage ordering and gating of the CDS pipeline engine

    A shallow embedding of package [pipeline] (the stage store of
    [engine/api/pipeline]): the stage and prerequisite tables behind the
    [database.QueryExecuter] port, the reordering statements, the loaders
    that rebuild stages from join rows, the prerequisite check and the
    layering of action parameters.

    Conventions.
    - Go's [int64] identifiers and [int] build orders are [Z].  The Go code
      only compares them; the arithmetic [build_order+1] and [build_order-1]
      is done by the storage engine inside the UPDATE statements, where an
      overflow is an error of the statement and not a wrap-around.
    - Go strings are [string] (sequences of bytes).
    - Every round trip to the storage engine is one [engine] step of the
      monad [M]: it either fails with the error the engine reports, leaving
      the tables as they were, or runs the statement as a whole. *)

From Stdlib Require Import ZArith String Ascii Lia.
From stdpp Require Import base decidable option list gmap strings.

Local Open Scope Z_scope.

(** ** Errors and results *)

Inductive error : Type :=
| ErrNoStage                      (* pipeline.ErrNoStage *)
| ErrNoRows                       (* sql.ErrNoRows *)
| ErrEngine (code : Z)            (* any other error of the storage engine *)
| ErrDecode (blob : string)       (* json.Unmarshal refused the blob *)
| ErrRegexp (pattern : string).   (* regexp.Match refused the pattern *)

Inductive result (A : Type) : Type :=
| Ok (a : A)
| Err (e : error).
Arguments Ok {A} a.
Arguments Err {A} e.

#[global] Instance error_eq_dec : EqDecision error.
Proof. solve_decision. Defined.

(** ** The [sdk] structs, with the fields this package reads and writes *)

Module sdk.

Record Prerequisite : Type := mkPrerequisite {
  Prerequisite_Parameter : string;
  Prerequisite_ExpectedValue : string
}.

(* sdk.Parameter: the name is a keyword of Rocq, hence the quote. *)
Record Parameter' : Type := mkParameter {
  Name : string;
  Value : string
}.

Record Stage : Type := mkStage {
  ID : Z;
  PipelineID : Z;
  Stage_Name : string;
  BuildOrder : Z;
  Enabled : bool;
  Prerequisites : list Prerequisite
}.

Record Action : Type := mkAction {
  Action_ID : Z;
  PipelineActionID : Z;
  PipelineStageID : Z;
  Action_Enabled : bool;
  Action_Parameters : list Parameter'
}.

#[global] Instance Prerequisite_eq_dec : EqDecision Prerequisite.
Proof. solve_decision. Defined.
#[global] Instance Parameter_eq_dec : EqDecision Parameter'.
Proof. solve_decision. Defined.
#[global] Instance Stage_eq_dec : EqDecision Stage.
Proof. solve_decision. Defined.

End sdk.
Import sdk.

(** ** The tables *)

Record StageRow : Type := mkStageRow {
  row_id : Z;
  row_pipeline_id : Z;
  row_name : string;
  row_build_order : Z;
  row_enabled : bool
}.

Record PrerequisiteRow : Type := mkPrerequisiteRow {
  pre_id : Z;
  pre_pipeline_stage_id : Z;
  pre_parameter : string;
  pre_expected_value : string
}.

Record PipelineRow : Type := mkPipelineRow {
  pip_id : Z;
  pip_last_modified : Z
}.

Record PipelineActionRow : Type := mkPipelineActionRow {
  pa_id : Z;
  pa_pipeline_stage_id : Z;
  pa_action_id : Z;
  pa_args : string;
  pa_enabled : bool
}.

#[global] Instance StageRow_eq_dec : EqDecision StageRow.
Proof. solve_decision. Defined.
#[global] Instance PrerequisiteRow_eq_dec : EqDecision PrerequisiteRow.
Proof. solve_decision. Defined.
#[global] Instance PipelineRow_eq_dec : EqDecision PipelineRow.
Proof. solve_decision. Defined.
#[global] Instance PipelineActionRow_eq_dec : EqDecision PipelineActionRow.
Proof. solve_decision. Defined.

(** The two serial columns ([RETURNING id]) draw from the sequences. *)
Record Database : Type := mkDatabase {
  pipeline : list PipelineRow;
  pipeline_stage : list StageRow;
  pipeline_stage_prerequisite : list PrerequisiteRow;
  pipeline_action : list PipelineActionRow;
  pipeline_stage_id_seq : Z;
  pipeline_stage_prerequisite_id_seq : Z
}.

#[global] Instance Database_eq_dec : EqDecision Database.
Proof. solve_decision. Defined.

Definition with_pipeline (ps : list PipelineRow) (d : Database) : Database :=
  mkDatabase ps (pipeline_stage d) (pipeline_stage_prerequisite d)
             (pipeline_action d) (pipeline_stage_id_seq d)
             (pipeline_stage_prerequisite_id_seq d).

Definition with_pipeline_stage (rows : list StageRow) (d : Database) : Database :=
  mkDatabase (pipeline d) rows (pipeline_stage_prerequisite d)
             (pipeline_action d) (pipeline_stage_id_seq d)
             (pipeline_stage_prerequisite_id_seq d).

Definition with_prerequisite (rows : list PrerequisiteRow) (d : Database) : Database :=
  mkDatabase (pipeline d) (pipeline_stage d) rows
             (pipeline_action d) (pipeline_stage_id_seq d)
             (pipeline_stage_prerequisite_id_seq d).

Definition with_pipeline_action (rows : list PipelineActionRow) (d : Database) : Database :=
  mkDatabase (pipeline d) (pipeline_stage d) (pipeline_stage_prerequisite d)
             rows (pipeline_stage_id_seq d)
             (pipeline_stage_prerequisite_id_seq d).

(** ** The statements this package sends *)

Inductive statement : Type :=
| SelectStage (pipelineID stageID : Z)
| SelectStages (pipelineID : Z)
| InsertStageRow (pipelineID : Z) (name : string) (buildOrder : Z)
| InsertPrerequisiteRows (stageID : Z) (ps : list Prerequisite)
| UpdateStageRow (stageID : Z) (name : string) (buildOrder : Z) (enabled : bool)
| DeletePrerequisiteRows (stageID : Z)
| DeleteStageRow (stageID : Z)
| CountStages (pipelineID : Z)
| DeletePipelineActions (stageID userID : Z)
| ShiftUp (pipelineID oldPosition newPosition : Z)
| ShiftDown (pipelineID oldPosition newPosition : Z)
| TouchPipeline (pipelineID : Z)
| TxBegin
| TxCommit
| TxRollback.

#[global] Instance statement_eq_dec : EqDecision statement.
Proof. solve_decision. Defined.

(** ** The connection and the monad of storage calls

    [faults] is what the engine will answer to the coming statements: the
    head [Some e] makes the next statement fail with [e], anything else lets
    it run.  [journal] lists the statements sent so far, [now] is the
    engine's [current_timestamp]. *)

Record Conn : Type := mkConn {
  data : Database;
  faults : list (option error);
  journal : list statement;
  now : Z
}.

Definition M (A : Type) : Type := Conn -> result A * Conn.

Definition ret {A} (a : A) : M A := fun c => (Ok a, c).

Definition bind {A B} (m : M A) (k : A -> M B) : M B :=
  fun c => match m c with
           | (Ok a, c') => k a c'
           | (Err e, c') => (Err e, c')
           end.

Definition fail {A} (e : error) : M A := fun c => (Err e, c).

Notation "'let*' x ':=' m 'in' k" := (bind m (fun x => k))
  (at level 10, x name, m at level 100, k at level 200).
Notation "m ';;' k" := (bind m (fun _ => k))
  (at level 100, k at level 200, right associativity).

(** One statement: sent, journalled, then refused or run. *)
Definition engine {A} (st : statement) (run : Z -> Database -> A * Database) : M A :=
  fun c =>
    match faults c with
    | Some e :: fs => (Err e, mkConn (data c) fs (journal c ++ [st]) (now c))
    | _ => let '(a, d) := run (now c) (data c) in
           (Ok a, mkConn d (tail (faults c)) (journal c ++ [st]) (now c))
    end.

(** ** What each statement does to the tables *)

(** [FROM pipeline_stage LEFT OUTER JOIN pipeline_stage_prerequisite ON
    pipeline_stage_prerequisite.pipeline_stage_id = pipeline_stage.id]:
    a stage row with no prerequisite comes once, with NULLs. *)
Definition join_rows (pres : list PrerequisiteRow) (r : StageRow)
  : list (StageRow * option PrerequisiteRow) :=
  match filter (λ q, pre_pipeline_stage_id q = row_id r) pres with
  | [] => [(r, None)]
  | qs => (λ q, (r, Some q)) <$> qs
  end.

Definition left_outer_join (stages : list StageRow) (pres : list PrerequisiteRow)
  : list (StageRow * option PrerequisiteRow) :=
  stages ≫= join_rows pres.

(** [ORDER BY build_order ASC].  The order of rows with equal keys is the
    engine's choice; the model keeps them in join order (a stable sort). *)
Fixpoint insert_by_build_order (x : StageRow * option PrerequisiteRow)
  (sorted : list (StageRow * option PrerequisiteRow))
  : list (StageRow * option PrerequisiteRow) :=
  match sorted with
  | [] => [x]
  | y :: sorted' =>
      if decide (row_build_order x.1 ≤ row_build_order y.1)
      then x :: sorted
      else y :: insert_by_build_order x sorted'
  end.

Definition order_by_build_order (rows : list (StageRow * option PrerequisiteRow))
  : list (StageRow * option PrerequisiteRow) :=
  foldr insert_by_build_order [] rows.

Definition select_stage (pipelineID stageID : Z) (d : Database)
  : list (StageRow * option PrerequisiteRow) :=
  filter (λ x, row_pipeline_id x.1 = pipelineID ∧ row_id x.1 = stageID)
         (left_outer_join (pipeline_stage d) (pipeline_stage_prerequisite d)).

Definition select_stages (pipelineID : Z) (d : Database)
  : list (StageRow * option PrerequisiteRow) :=
  order_by_build_order
    (filter (λ x, row_pipeline_id x.1 = pipelineID)
            (left_outer_join (pipeline_stage d) (pipeline_stage_prerequisite d))).

Definition stages_of (pipelineID : Z) (d : Database) : list StageRow :=
  filter (λ r, row_pipeline_id r = pipelineID) (pipeline_stage d).

Definition count_stages (pipelineID : Z) (d : Database) : Z :=
  Z.of_nat (length (stages_of pipelineID d)).

Definition insert_stage_row (pipelineID : Z) (name : string) (buildOrder : Z)
  (d : Database) : Z * Database :=
  let id := pipeline_stage_id_seq d in
  (id, mkDatabase (pipeline d)
         (pipeline_stage d ++ [mkStageRow id pipelineID name buildOrder true])
         (pipeline_stage_prerequisite d) (pipeline_action d)
         (id + 1) (pipeline_stage_prerequisite_id_seq d)).

(** The rows of one multi-row INSERT, numbered from the sequence. *)
Fixpoint prerequisite_rows (next stageID : Z) (ps : list Prerequisite)
  : list PrerequisiteRow :=
  match ps with
  | [] => []
  | p :: ps' =>
      mkPrerequisiteRow next stageID (Prerequisite_Parameter p)
                        (Prerequisite_ExpectedValue p)
      :: prerequisite_rows (next + 1) stageID ps'
  end.

Definition insert_prerequisite_rows (stageID : Z) (ps : list Prerequisite)
  (d : Database) : Z * Database :=
  let next := pipeline_stage_prerequisite_id_seq d in
  (next, mkDatabase (pipeline d) (pipeline_stage d)
           (pipeline_stage_prerequisite d ++ prerequisite_rows next stageID ps)
           (pipeline_action d) (pipeline_stage_id_seq d)
           (next + Z.of_nat (length ps))).

Definition update_stage_row (stageID : Z) (name : string) (buildOrder : Z)
  (enabled : bool) (d : Database) : Database :=
  with_pipeline_stage
    ((λ r, if decide (row_id r = stageID)
           then mkStageRow (row_id r) (row_pipeline_id r) name buildOrder enabled
           else r) <$> pipeline_stage d) d.

Definition delete_prerequisite_rows (stageID : Z) (d : Database) : Database :=
  with_prerequisite
    (filter (λ q, pre_pipeline_stage_id q ≠ stageID) (pipeline_stage_prerequisite d)) d.

Definition delete_stage_row (stageID : Z) (d : Database) : Database :=
  with_pipeline_stage (filter (λ r, row_id r ≠ stageID) (pipeline_stage d)) d.

Definition set_build_order (o : Z) (r : StageRow) : StageRow :=
  mkStageRow (row_id r) (row_pipeline_id r) (row_name r) o (row_enabled r).

(** [SET build_order=build_order+1 WHERE build_order < $1 AND
    build_order >= $2 AND pipeline_id = $3] *)
Definition shift_up (pipelineID oldPosition newPosition : Z) (d : Database) : Database :=
  with_pipeline_stage
    ((λ r, if decide (row_build_order r < oldPosition ∧
                      newPosition ≤ row_build_order r ∧
                      row_pipeline_id r = pipelineID)
           then set_build_order (row_build_order r + 1) r
           else r) <$> pipeline_stage d) d.

(** [SET build_order=build_order-1 WHERE build_order <= $1 AND
    build_order > $2 AND pipeline_id = $3], with [$1] the new position and
    [$2] the old one. *)
Definition shift_down (pipelineID oldPosition newPosition : Z) (d : Database) : Database :=
  with_pipeline_stage
    ((λ r, if decide (row_build_order r ≤ newPosition ∧
                      oldPosition < row_build_order r ∧
                      row_pipeline_id r = pipelineID)
           then set_build_order (row_build_order r - 1) r
           else r) <$> pipeline_stage d) d.

Definition touch_pipeline (pipelineID : Z) (timestamp : Z) (d : Database) : Database :=
  with_pipeline
    ((λ p, if decide (pip_id p = pipelineID)
           then mkPipelineRow (pip_id p) timestamp else p) <$> pipeline d) d.

Definition delete_pipeline_actions (stageID : Z) (d : Database) : Database :=
  with_pipeline_action
    (filter (λ a, pa_pipeline_stage_id a ≠ stageID) (pipeline_action d)) d.

(** ** The storage port

    [db.Query], [db.QueryRow(...).Scan] and [db.Exec] of
    [database.QueryExecuter], over [*sql.DB] and [*sql.Tx] alike.  [Query]
    hands back the rows it found, none included: of the three only
    [QueryRow(...).Scan] reports [sql.ErrNoRows] by itself. *)

Definition Query {A} (st : statement) (rows : Database -> list A) : M (list A) :=
  engine st (λ _ d, (rows d, d)).

Definition QueryRow {A} (st : statement) (run : Database -> A * Database) : M A :=
  engine st (λ _ d, run d).

Definition Exec (st : statement) (run : Z -> Database -> Database) : M unit :=
  engine st (λ t d, (tt, run t d)).

(** [db.Begin()] remembers the tables as they are; [tx.Rollback()] puts them
    back; [tx.Commit()] can be refused like any statement.  Rolling back a
    committed transaction does nothing and sends nothing. *)
Definition Begin : M Database := engine TxBegin (λ _ d, (d, d)).

Definition Commit : M unit := engine TxCommit (λ _ d, (tt, d)).

Definition Rollback (tx : Database) (c : Conn) : Conn :=
  mkConn tx (faults c) (journal c ++ [TxRollback]) (now c).

(** [defer tx.Rollback()] around a body that ends with [tx.Commit()]. *)
Definition deferRollback {A} (tx : Database) (body : M A) : M A :=
  fun c => match body c with
           | (Ok a, c') => (Ok a, c')
           | (Err e, c') => (Err e, Rollback tx c')
           end.

(** ** Collaborators of other packages *)

(** Modelled from the spec: [UpdatePipelineLastModified] lives in another
    file of the package, absent here; it "update[s] the owning pipeline's
    lastModified stamp", one statement setting the column to the current
    timestamp. *)
Definition UpdatePipelineLastModified (pipelineID : Z) : M unit :=
  Exec (TouchPipeline pipelineID) (λ t d, touch_pipeline pipelineID t d).

(** Modelled from the spec: [DeletePipelineActionByStage] is the
    action-placement collaborator, absent here, "keyed by stage id and actor
    id for audit"; it removes the placements of the stage. *)
Definition DeletePipelineActionByStage (stageID userID : Z) : M unit :=
  Exec (DeletePipelineActions stageID userID) (λ _ d, delete_pipeline_actions stageID d).

(** ** The stage store *)

Definition zero_Stage : Stage := mkStage 0 0 "" 0 false [].

(* One turn of [for rows.Next()] in LoadStage: Scan overwrites the scalar
   fields, a non-NULL prerequisite is appended. *)
Definition LoadStage_scan (stage : Stage) (x : StageRow * option PrerequisiteRow) : Stage :=
  mkStage (row_id x.1) (row_pipeline_id x.1) (row_name x.1)
          (row_build_order x.1) (row_enabled x.1)
          match x.2 with
          | Some q => Prerequisites stage ++
                      [mkPrerequisite (pre_parameter q) (pre_expected_value q)]
          | None => Prerequisites stage
          end.

Definition LoadStage (pipelineID stageID : Z) : M Stage :=
  fun c =>
    match Query (SelectStage pipelineID stageID) (select_stage pipelineID stageID) c with
    | (Err ErrNoRows, c') => (Err ErrNoStage, c')
    | (Err e, c') => (Err e, c')
    | (Ok rows, c') => (Ok (fold_left LoadStage_scan rows zero_Stage), c')
    end.

Definition InsertStagePrequisites (s : Stage) : M unit :=
  (if (0 <? length (Prerequisites s))%nat
   then QueryRow (InsertPrerequisiteRows (ID s) (Prerequisites s))
                 (insert_prerequisite_rows (ID s) (Prerequisites s)) ;; ret tt
   else ret tt) ;;
  UpdatePipelineLastModified (PipelineID s).

(* [s] is a pointer in Go: the returned struct is *s as the call leaves it. *)
Definition InsertStage (s : Stage) : M Stage :=
  let* id := QueryRow (InsertStageRow (PipelineID s) (Stage_Name s) (BuildOrder s))
                      (insert_stage_row (PipelineID s) (Stage_Name s) (BuildOrder s)) in
  let s' := mkStage id (PipelineID s) (Stage_Name s) (BuildOrder s) true (Prerequisites s) in
  InsertStagePrequisites s' ;;
  ret s'.

(* One turn of [for rows.Next()] in LoadStages.  [mapStages] holds the
   structs the pointers lead to, keyed by stage id (one struct is allocated
   per id); [stagesPtr] holds the pointers, written as the id of their
   struct. *)
Definition LoadStages_scan (st : gmap Z Stage * list Z)
  (x : StageRow * option PrerequisiteRow) : gmap Z Stage * list Z :=
  let id := row_id x.1 in
  let stageData :=
    match st.1 !! id with
    | Some s => s
    | None => mkStage id 0 (row_name x.1) 0 (row_enabled x.1) []
    end in
  let stageData' :=
    match x.2 with
    | Some q => mkStage (ID stageData) (PipelineID stageData) (Stage_Name stageData)
                        (BuildOrder stageData) (Enabled stageData)
                        (Prerequisites stageData ++
                         [mkPrerequisite (pre_parameter q) (pre_expected_value q)])
    | None => stageData
    end in
  (<[id := stageData']> st.1, st.2 ++ [id]).

Definition LoadStages (pipelineID : Z) : M (list Stage) :=
  let* rows := Query (SelectStages pipelineID) (select_stages pipelineID) in
  let '(mapStages, stagesPtr) := fold_left LoadStages_scan rows (∅, []) in
  ret (omap (λ ptr, mapStages !! ptr) stagesPtr).

Definition deleteStagePrerequisites (stageID : Z) : M unit :=
  Exec (DeletePrerequisiteRows stageID) (λ _ d, delete_prerequisite_rows stageID d).

Definition UpdateStage (s : Stage) : M unit :=
  Exec (UpdateStageRow (ID s) (Stage_Name s) (BuildOrder s) (Enabled s))
       (λ _ d, update_stage_row (ID s) (Stage_Name s) (BuildOrder s) (Enabled s) d) ;;
  deleteStagePrerequisites (ID s) ;;
  InsertStagePrequisites s.

Definition CountStageByPipelineID (pipelineID : Z) : M Z :=
  QueryRow (CountStages pipelineID) (λ d, (count_stages pipelineID d, d)).

Definition deleteStageByID (s : Stage) : M unit :=
  deleteStagePrerequisites (ID s) ;;
  Exec (DeleteStageRow (ID s)) (λ _ d, delete_stage_row (ID s) d).

Definition moveUpStages (pipelineID oldPosition newPosition : Z) : M unit :=
  Exec (ShiftUp pipelineID oldPosition newPosition)
       (λ _ d, shift_up pipelineID oldPosition newPosition d).

Definition moveDownStages (pipelineID oldPosition newPosition : Z) : M unit :=
  Exec (ShiftDown pipelineID oldPosition newPosition)
       (λ _ d, shift_down pipelineID oldPosition newPosition d).

Definition DeleteStageByID (s : Stage) (userID : Z) : M unit :=
  let* nbOfStages := CountStageByPipelineID (PipelineID s) in
  DeletePipelineActionByStage (ID s) userID ;;
  deleteStageByID s ;;
  moveDownStages (PipelineID s) (BuildOrder s) nbOfStages.

Definition with_BuildOrder (o : Z) (s : Stage) : Stage :=
  mkStage (ID s) (PipelineID s) (Stage_Name s) o (Enabled s) (Prerequisites s).

(* [stageToMove] is a pointer in Go: the returned struct is *stageToMove as
   a successful call leaves it. *)
Definition MoveStage (stageToMove : Stage) (newBuildOrder : Z) : M Stage :=
  let* tx := Begin in
  deferRollback tx (
    (if decide (newBuildOrder < BuildOrder stageToMove)
     then moveUpStages (PipelineID stageToMove) (BuildOrder stageToMove) newBuildOrder
     else if decide (BuildOrder stageToMove < newBuildOrder)
     then moveDownStages (PipelineID stageToMove) (BuildOrder stageToMove) newBuildOrder
     else ret tt) ;;
    UpdateStage (with_BuildOrder newBuildOrder stageToMove) ;;
    Commit ;;
    ret (with_BuildOrder newBuildOrder stageToMove)).

(** Modelled from the spec: the caller of [DeleteStageByID] that opens the
    transaction (an API handler) is absent here.  "[deleteStage(stage,
    actorId)]: within one transaction -- count existing stages, delete this
    stage's action placements, delete prerequisites, delete the stage row,
    then shift every stage with greater build order down by one.  If any step
    fails the whole transaction rolls back". *)
Definition deleteStage (stage : Stage) (actorId : Z) : M unit :=
  let* tx := Begin in
  deferRollback tx (DeleteStageByID stage actorId ;; Commit).

(** ** The prerequisite check *)

(** [strings.Replace(s, old, new, -1)] for a non-empty [old] (a placeholder
    is at least five bytes long): the occurrences of [old] are found from
    the left, without overlap.  [skip] counts the bytes of a matched
    occurrence that are still to be passed over. *)
Fixpoint replace_from (old new : string) (skip : nat) (s : string) : string :=
  match s with
  | EmptyString => EmptyString
  | String ch rest =>
      match skip with
      | S k => replace_from old new k rest
      | O => if String.prefix old s
             then new +:+ replace_from old new (String.length old - 1) rest
             else String ch (replace_from old new 0 rest)
      end
  end.

Definition strings_Replace (s old new : string) : string :=
  replace_from old new 0 s.

Definition strings_HasPrefix (s prefix : string) : bool := String.prefix prefix s.

Definition strings_HasSuffix (s suffix : string) : bool :=
  let n := String.length s in
  let k := String.length suffix in
  if (k <=? n)%nat then String.eqb (substring (n - k) k s) suffix else false.

(** Memory holds the backing arrays of the parameter slices, by address.
    [pb.Parameters] is a slice: a struct passed by value carries the address
    along, so the callee's [pb.Parameters[i]] and the caller's are the same
    cell. *)
Abbreviation Memory := (gmap nat (list Parameter')).

(* sdk.PipelineBuild, with the one field this package reads and writes. *)
Record PipelineBuild : Type := mkPipelineBuild {
  Parameters : nat   (* the slice, by the address of its backing array *)
}.

(** The elements of the slice; a slice that points nowhere is Go's nil. *)
Definition elements (m : Memory) (pb : PipelineBuild) : list Parameter' :=
  default [] (m !! Parameters pb).

Definition placeholder (name : string) : string := "{{." +:+ name +:+ "}}".

(* The body of [for i := range pb.Parameters]: the array and [replaced]
   before, and after the assignment to [pb.Parameters[i].Value]. *)
Definition replace_at (pbp : Parameter') (st : list Parameter' * bool) (i : nat)
  : list Parameter' * bool :=
  match st.1 !! i with
  | Some q =>
      let old := Value q in
      let v := strings_Replace (Value q) (placeholder (Name pbp)) (Value pbp) in
      (<[i := mkParameter (Name q) v]> st.1, if decide (v = old) then st.2 else true)
  | None => st
  end.

(* The body of [for _, pbp := range pb.Parameters]: turn [k] copies element
   [k] of the array as it is by then into [pbp]. *)
Definition replace_with (st : list Parameter' * bool) (k : nat)
  : list Parameter' * bool :=
  match st.1 !! k with
  | Some pbp => fold_left (replace_at pbp) (seq 0 (length st.1)) st
  | None => st
  end.

(* One turn of the outer [for]: [replaced := false], then the two loops. *)
Definition replace_pass (ps : list Parameter') : list Parameter' * bool :=
  fold_left replace_with (seq 0 (length ps)) (ps, false).

(** [for { ...; if !replaced { break } }], on the content of the array the
    assignments go to.  The loop has no bound in the source; [fuel] bounds
    the number of turns and [None] means the bound was reached. *)
Fixpoint resolve (fuel : nat) (ps : list Parameter') : option (list Parameter') :=
  match fuel with
  | O => None
  | S fuel' =>
      let '(ps', replaced) := replace_pass ps in
      if replaced then resolve fuel' ps' else Some ps'
  end.

Definition anchored (expectedValue : string) : string :=
  let e := if strings_HasPrefix expectedValue "^" then expectedValue
           else "^" +:+ expectedValue in
  if strings_HasSuffix e "$" then e else e +:+ "$".

Section CheckPrerequisites.

(** [trigger.ProcessTriggerExpectedValue] and [regexp.Match] belong to
    other packages; [regexp_Match pattern b] is [None] when the pattern
    does not compile. *)
Variable ProcessTriggerExpectedValue : string -> PipelineBuild -> Memory -> string.
Variable regexp_Match : string -> string -> option bool.

(* [for _, pbp := range pb.Parameters] of the check, for one prerequisite:
   [Ok true] when the loop runs to its end, else what is returned. *)
Fixpoint check_parameters (pb : PipelineBuild) (m : Memory) (p : Prerequisite)
  (pbps : list Parameter') : result bool :=
  match pbps with
  | [] => Ok true
  | pbp :: pbps' =>
      if decide (Prerequisite_Parameter p = Name pbp)
      then
        let expectedValue :=
          anchored (ProcessTriggerExpectedValue (Prerequisite_ExpectedValue p) pb m) in
        match regexp_Match expectedValue (Value pbp) with
        | None => Err (ErrRegexp expectedValue)
        | Some false => Ok false
        | Some true => check_parameters pb m p pbps'
        end
      else check_parameters pb m p pbps'
  end.

Fixpoint check_conditions (pb : PipelineBuild) (m : Memory)
  (prerequisites : list Prerequisite) : result bool :=
  match prerequisites with
  | [] => Ok true
  | p :: prerequisites' =>
      match check_parameters pb m p (elements m pb) with
      | Ok true => check_conditions pb m prerequisites'
      | r => r
      end
  end.

(** The result, and memory as the call leaves it.  [pb] is a copy of the
    caller's struct, and [pb.Parameters[i].Value = ...] writes into the array
    both point to: the array holds the resolved values when the check
    starts, and after the call. *)
Definition CheckPrerequisites (fuel : nat) (s : Stage) (pb : PipelineBuild)
  (m : Memory) : option (result bool * Memory) :=
  match resolve fuel (elements m pb) with
  | None => None
  | Some ps =>
      let m' := match m !! Parameters pb with
                | Some _ => <[Parameters pb := ps]> m
                | None => m
                end in
      Some (check_conditions pb m' (Prerequisites s), m')
  end.

End CheckPrerequisites.

(** ** Action parameters of a stage-action placement *)

(** Modelled from the spec: [updateParamInList] is in another file of the
    package, absent here.  "If an override of the same name exists, the
    override value wins and is marked consumed": the list is searched for the
    name of the definition's parameter; the entry found keeps its value. *)
Fixpoint updateParamInList (params : list Parameter') (paramAction : Parameter')
  : bool * list Parameter' :=
  match params with
  | [] => (false, [])
  | p :: params' =>
      if decide (Name p = Name paramAction)
      then (true, p :: params')
      else let '(isUpdated, params'') := updateParamInList params' paramAction in
           (isUpdated, p :: params'')
  end.

(* The body of [for i := range a.Parameters] in loadPipelineStage. *)
Definition layer (pipelineActionParameter : list Parameter') (aParameter : Parameter')
  : list Parameter' :=
  let '(isUpdated, pipelineActionParameter') :=
    updateParamInList pipelineActionParameter aParameter in
  if isUpdated then pipelineActionParameter'
  else pipelineActionParameter' ++ [aParameter].

Section loadPipelineStage.

(** [json.Unmarshal] of the [args] column; [None] when the blob is
    malformed. *)
Variable json_Unmarshal : string -> option (list Parameter').

(** The body of the loop over [mapActionsStages[id]] in loadPipelineStage,
    once [action.LoadActionByID] has returned the definition [a]:
    [placement] is [mapActionsStages[id][index]] and [args] is
    [mapArgs[id][index]]. *)
Definition loadPipelineStage_action (id : Z) (placement : Action) (args : string)
  (a : Action) : result Action :=
  match json_Unmarshal args with
  | None => Err (ErrDecode args)
  | Some pipelineActionParameter =>
      Ok (mkAction (Action_ID a) (PipelineActionID placement) id
                   (Action_Enabled placement)
                   (fold_left layer (Action_Parameters a) pipelineActionParameter))
  end.

End loadPipelineStage.

(** * The properties

    What follows is not code of the package: the vocabulary the theorems
    are stated in. *)

(** ** Post-conditions and the tables each call leaves *)

(** [post m c Q E]: run from [c], [m] ends in a result and a connection that
    satisfy [Q], or in an error and a connection that satisfy [E]. *)
Definition post {A} (m : M A) (c : Conn)
  (Q : A -> Conn -> Prop) (E : error -> Conn -> Prop) : Prop :=
  match m c with
  | (Ok a, c') => Q a c'
  | (Err e, c') => E e c'
  end.

(** What a statement leaves behind when the engine refuses it. *)
Definition refused (c c' : Conn) : Prop :=
  data c' = data c.

(** The post-condition of a call that succeeded: the tables, the clock and
    the journal it leaves. *)
Definition leaves (d : Database) (c : Conn) (sent : list statement) (c' : Conn) : Prop :=
  data c' = d ∧ now c' = now c ∧ journal c' = journal c ++ sent.

Definition InsertStagePrequisites_data (s : Stage) (t : Z) (d : Database) : Database :=
  touch_pipeline (PipelineID s) t
    (if (0 <? length (Prerequisites s))%nat
     then (insert_prerequisite_rows (ID s) (Prerequisites s) d).2
     else d).

Definition InsertStagePrequisites_sent (s : Stage) : list statement :=
  (if (0 <? length (Prerequisites s))%nat
   then [InsertPrerequisiteRows (ID s) (Prerequisites s)]
   else []) ++ [TouchPipeline (PipelineID s)].

Definition UpdateStage_data (s : Stage) (t : Z) (d : Database) : Database :=
  InsertStagePrequisites_data s t
    (delete_prerequisite_rows (ID s)
       (update_stage_row (ID s) (Stage_Name s) (BuildOrder s) (Enabled s) d)).

Definition UpdateStage_sent (s : Stage) : list statement :=
  [UpdateStageRow (ID s) (Stage_Name s) (BuildOrder s) (Enabled s);
   DeletePrerequisiteRows (ID s)] ++ InsertStagePrequisites_sent s.

Definition inserted (s : Stage) (d : Database) : Stage :=
  mkStage (pipeline_stage_id_seq d) (PipelineID s) (Stage_Name s) (BuildOrder s)
          true (Prerequisites s).

Definition InsertStage_data (s : Stage) (t : Z) (d : Database) : Database :=
  InsertStagePrequisites_data (inserted s d) t
    (insert_stage_row (PipelineID s) (Stage_Name s) (BuildOrder s) d).2.

Definition DeleteStageByID_data (s : Stage) (userID : Z) (d : Database) : Database :=
  shift_down (PipelineID s) (BuildOrder s) (count_stages (PipelineID s) d)
    (delete_stage_row (ID s)
       (delete_prerequisite_rows (ID s)
          (delete_pipeline_actions (ID s) d))).

Definition DeleteStageByID_sent (s : Stage) (userID : Z) (d : Database) : list statement :=
  [CountStages (PipelineID s); DeletePipelineActions (ID s) userID;
   DeletePrerequisiteRows (ID s); DeleteStageRow (ID s);
   ShiftDown (PipelineID s) (BuildOrder s) (count_stages (PipelineID s) d)].

Definition MoveStage_shift (s : Stage) (newBuildOrder : Z) (d : Database) : Database :=
  if decide (newBuildOrder < BuildOrder s)
  then shift_up (PipelineID s) (BuildOrder s) newBuildOrder d
  else if decide (BuildOrder s < newBuildOrder)
  then shift_down (PipelineID s) (BuildOrder s) newBuildOrder d
  else d.

Definition MoveStage_shift_sent (s : Stage) (newBuildOrder : Z) : list statement :=
  if decide (newBuildOrder < BuildOrder s)
  then [ShiftUp (PipelineID s) (BuildOrder s) newBuildOrder]
  else if decide (BuildOrder s < newBuildOrder)
  then [ShiftDown (PipelineID s) (BuildOrder s) newBuildOrder]
  else [].

Definition MoveStage_data (s : Stage) (newBuildOrder : Z) (t : Z) (d : Database) : Database :=
  UpdateStage_data (with_BuildOrder newBuildOrder s) t (MoveStage_shift s newBuildOrder d).

Definition MoveStage_sent (s : Stage) (newBuildOrder : Z) : list statement :=
  [TxBegin] ++ MoveStage_shift_sent s newBuildOrder ++
  UpdateStage_sent (with_BuildOrder newBuildOrder s) ++ [TxCommit].

(** ** Moving, as the specification words it *)

(** The build order of a stage other than the moved one, [o] being the old
    place of the moved stage and [o'] its new place. *)
Definition shifted (o o' x : Z) : Z :=
  if decide (o' < o) then (if decide (o' ≤ x < o) then x + 1 else x)
  else if decide (o < o') then (if decide (o < x ≤ o') then x - 1 else x)
  else x.

Definition moveStage_row (s : Stage) (o' : Z) (r : StageRow) : StageRow :=
  if decide (row_id r = ID s)
  then mkStageRow (row_id r) (row_pipeline_id r) (Stage_Name s) o' (Enabled s)
  else if decide (row_pipeline_id r = PipelineID s)
  then set_build_order (shifted (BuildOrder s) o' (row_build_order r)) r
  else r.

(** ** The build-order invariant and the operations on a pipeline *)

Definition build_orders (pipelineID : Z) (d : Database) : list Z :=
  row_build_order <$> stages_of pipelineID d.

(** "The set of build orders is exactly {1..N} with no gaps or duplicates":
    the build orders, as a list, are a rearrangement of 1, 2, ..., N. *)
Definition dense (orders : list Z) : Prop :=
  orders ≡ₚ seqZ 1 (Z.of_nat (length orders)).

Definition build_order_invariant (d : Database) : Prop :=
  forall pipelineID, dense (build_orders pipelineID d).

(** [pipeline_stage.id] is a serial primary key: no two rows share an id and
    the sequence is ahead of every id handed out. *)
Definition primary_keys (d : Database) : Prop :=
  NoDup (row_id <$> pipeline_stage d) ∧
  forall r, r ∈ pipeline_stage d -> row_id r < pipeline_stage_id_seq d.

Inductive operation : Type :=
| OpInsertStage (s : Stage)
| OpDeleteStage (s : Stage) (userID : Z)
| OpMoveStage (s : Stage) (newBuildOrder : Z).

Definition perform (op : operation) : M unit :=
  match op with
  | OpInsertStage s => InsertStage s ;; ret tt
  | OpDeleteStage s userID => DeleteStageByID s userID
  | OpMoveStage s newBuildOrder => MoveStage s newBuildOrder ;; ret tt
  end.

(** The struct handed to the store describes a row of the table: same id,
    same pipeline, same build order. *)
Definition stored (d : Database) (s : Stage) : Prop :=
  exists r, r ∈ pipeline_stage d ∧ row_id r = ID s ∧
            row_pipeline_id r = PipelineID s ∧ row_build_order r = BuildOrder s.

(** What the callers of the store see to before they call it: a new stage is
    appended, a stage that is deleted or moved is one of the table, and a
    stage is moved to a place of its pipeline. *)
Definition admissible (d : Database) (op : operation) : Prop :=
  match op with
  | OpInsertStage s => BuildOrder s = count_stages (PipelineID s) d + 1
  | OpDeleteStage s _ => stored d s
  | OpMoveStage s newBuildOrder =>
      stored d s ∧ 1 ≤ newBuildOrder ≤ count_stages (PipelineID s) d
  end.

(** Sequences of operations.  An operation that succeeds is admissible
    where it starts.  Any move may fail: [MoveStage] rolls its own
    transaction back.  An insert that fails is admissible where it starts,
    and what it has written stays.  [DeleteStageByID] opens no transaction:
    a delete that fails is followed by the [tx.Rollback()] of its caller,
    which puts the tables back as they were when the delete started. *)
Inductive history : Conn -> Conn -> Prop :=
| history_nil c : history c c
| history_success c op c1 c2 :
    admissible (data c) op ->
    perform op c = (Ok tt, c1) ->
    history c1 c2 ->
    history c c2
| history_failed_move c s newBuildOrder e c1 c2 :
    perform (OpMoveStage s newBuildOrder) c = (Err e, c1) ->
    history c1 c2 ->
    history c c2
| history_failed_insert c s e c1 c2 :
    admissible (data c) (OpInsertStage s) ->
    perform (OpInsertStage s) c = (Err e, c1) ->
    history c1 c2 ->
    history c c2
| history_failed_delete c s userID e c1 c2 :
    perform (OpDeleteStage s userID) c = (Err e, c1) ->
    history (Rollback (data c) c1) c2 ->
    history c c2.

(** The build order a move from [o] to [o'] gives to the stage that stood at
    [x], and the one a deletion at [o] in a pipeline of [n] stages gives. *)
Definition moved_order (o o' x : Z) : Z :=
  if decide (x = o) then o' else shifted o o' x.

Definition closed_up (o n x : Z) : Z :=
  if decide (x ≤ n ∧ o < x) then x - 1 else x.

(** The three tables as [UpdateStage s] leaves them, read off the
    statements it sends. *)
Definition rewritten_stage_rows (s : Stage) (rows : list StageRow) : list StageRow :=
  (λ r, if decide (row_id r = ID s)
        then mkStageRow (row_id r) (row_pipeline_id r) (Stage_Name s) (BuildOrder s) (Enabled s)
        else r) <$> rows.

Definition replaced_prerequisite_rows (s : Stage) (d : Database) : list PrerequisiteRow :=
  filter (λ q, pre_pipeline_stage_id q ≠ ID s) (pipeline_stage_prerequisite d) ++
  prerequisite_rows (pipeline_stage_prerequisite_id_seq d) (ID s) (Prerequisites s).

Definition stamped_pipeline_rows (pipelineID t : Z) (rows : list PipelineRow) : list PipelineRow :=
  (λ p, if decide (pip_id p = pipelineID) then mkPipelineRow (pip_id p) t else p) <$> rows.

(** The list the specification describes: "definition order for matched
    names followed by unmatched overrides in their original order", an
    override replacing the default of the same name. *)
Definition override_of (overrides : list Parameter') (default : Parameter') : Parameter' :=
  match list_find (λ o, Name o = Name default) overrides with
  | Some (_, o) => o
  | None => default
  end.

Definition layered_as_specified (defaults overrides : list Parameter') : list Parameter' :=
  (override_of overrides <$> defaults) ++
  filter (λ o, Name o ∉ Name <$> defaults) overrides.

(** The list the code builds: the overrides, then the defaults nobody in the
    list names yet. *)
Fixpoint unnamed_defaults (names : list string) (defaults : list Parameter')
  : list Parameter' :=
  match defaults with
  | [] => []
  | d :: defaults' =>
      if decide (Name d ∈ names) then unnamed_defaults names defaults'
      else d :: unnamed_defaults (names ++ [Name d]) defaults'
  end.

(** The prerequisites stored for a stage, in table order. *)
Definition prerequisites_of (stageID : Z) (d : Database) : list Prerequisite :=
  (λ q, mkPrerequisite (pre_parameter q) (pre_expected_value q)) <$>
  filter (λ q, pre_pipeline_stage_id q = stageID) (pipeline_stage_prerequisite d).

Definition stage_of_row (r : StageRow) (prerequisites : list Prerequisite) : Stage :=
  mkStage (row_id r) (row_pipeline_id r) (row_name r) (row_build_order r)
          (row_enabled r) prerequisites.

(** [old] occurs in [s], at some position. *)
Fixpoint occurs (old s : string) : bool :=
  String.prefix old s ||
  match s with
  | EmptyString => false
  | String _ rest => occurs old rest
  end.

(** No value of the build holds the placeholder of a parameter of the
    build. *)
Definition placeholder_free (ps : list Parameter') : Prop :=
  forall p q, p ∈ ps -> q ∈ ps -> occurs (placeholder (Name p)) (Value q) = false.

(** The string holds no opening brace, so that no placeholder starts in
    it. *)
Fixpoint brace_free (s : string) : bool :=
  match s with
  | EmptyString => true
  | String ch rest => negb (Ascii.eqb ch "{") && brace_free rest
  end.

(** * Data to run the code on *)

Definition db2 : Database :=
  mkDatabase [mkPipelineRow 1 100]
             [mkStageRow 10 1 "build" 1 true; mkStageRow 11 1 "deploy" 2 true]
             [mkPrerequisiteRow 1 11 "branch" "master"; mkPrerequisiteRow 2 11 "env" "prod"]
             [] 12 3.

Definition db4 : Database :=
  mkDatabase [mkPipelineRow 1 100; mkPipelineRow 2 100]
             [mkStageRow 10 1 "build" 1 true; mkStageRow 11 1 "test" 2 true;
              mkStageRow 12 2 "other" 1 true;
              mkStageRow 13 1 "package" 3 true; mkStageRow 14 1 "deploy" 4 true]
             [mkPrerequisiteRow 1 14 "branch" "master"]
             [mkPipelineActionRow 1 10 5 "[]" true] 15 2.

Definition conn (d : Database) : Conn := mkConn d [] [] 200.

(** A run on [db4]: a stage is appended to pipeline 1, a move is refused by
    the engine at its first UPDATE, the last stage but one is moved to the
    second place, and the second stage is deleted.  Then an insert is
    refused at its prerequisites, which leaves its stage row; a delete is
    refused at its shift and rolled back by its caller; and one more stage
    is appended. *)
Definition run4_start : Conn :=
  mkConn db4
         ([None; None; None; Some (ErrEngine 7)] ++ replicate 11 None ++
          [None; Some (ErrEngine 3); None; None; None; None; Some (ErrEngine 9)])
         [] 200.

Definition run4_ops : list operation :=
  [OpInsertStage (mkStage 0 1 "notify" 5 false []);
   OpMoveStage (mkStage 10 1 "build" 1 true []) 3;
   OpMoveStage (mkStage 14 1 "deploy" 4 true []) 2;
   OpDeleteStage (mkStage 11 1 "test" 3 true []) 42].

Definition run4_refused_insert : operation :=
  OpInsertStage (mkStage 0 1 "audit" 5 false [mkPrerequisite "branch" "master"]).

Definition run4_refused_delete : operation :=
  OpDeleteStage (mkStage 13 1 "package" 3 true []) 42.

Definition run4_last_insert : operation :=
  OpInsertStage (mkStage 0 1 "report" 6 false []).

Definition run4_end : Conn :=
  let c4 := fold_left (λ c op, (perform op c).2) run4_ops run4_start in
  let c5 := (perform run4_refused_insert c4).2 in
  let c6 := Rollback (data c5) (perform run4_refused_delete c5).2 in
  (perform run4_last_insert c6).2.

Definition deploy2 : Stage :=
  mkStage 11 1 "deploy" 2 true
          [mkPrerequisite "branch" "master"; mkPrerequisite "env" "prod"].

Definition build1 : Stage := mkStage 10 1 "build" 1 true [].

(** A stage whose prerequisite table holds the same pair twice. *)
Definition db_dup : Database :=
  mkDatabase [mkPipelineRow 1 100]
             [mkStageRow 10 1 "build" 1 true]
             [mkPrerequisiteRow 1 10 "branch" "master"; mkPrerequisiteRow 2 10 "branch" "master"]
             [] 11 3.

Definition param_a_ref_b : Parameter' := mkParameter "a" "{{.b}}".
Definition param_b_x : Parameter' := mkParameter "b" "x".
Definition param_a_x : Parameter' := mkParameter "a" "x".
Definition param_a_ref_a : Parameter' := mkParameter "a" "{{.a}}".
Definition param_a_ref_a_x : Parameter' := mkParameter "a" "{{.a}}x".
Definition param_a_x_ref_a : Parameter' := mkParameter "a" "x{{.a}}".

Definition timeout30 : Parameter' := mkParameter "timeout" "30".
Definition timeout60 : Parameter' := mkParameter "timeout" "60".
Definition retries1 : Parameter' := mkParameter "retries" "1".
Definition retries5 : Parameter' := mkParameter "retries" "5".

(** Stand-ins for the two collaborators of the check, to run it on
    examples: no macro is expanded, and a pattern matches the one value it
    spells between [^] and [$]. *)
Definition no_macro (expectedValue : string) (_ : PipelineBuild) (_ : Memory) : string :=
  expectedValue.

Definition literal_Match (pattern : string) (b : string) : option bool :=
  Some (String.eqb pattern ("^" +:+ b +:+ "$")).

Definition param_b_ref_c : Parameter' := mkParameter "b" "{{.c}}".
Definition param_c_x : Parameter' := mkParameter "c" "x".

Definition stage_wants_a_x : Stage :=
  mkStage 1 1 "gate" 1 true [mkPrerequisite "a" "x"].

Definition build_at_1 : PipelineBuild := mkPipelineBuild 1.

Definition memory_a_ref_b : Memory := {[ 1%nat := [param_a_ref_b; param_b_x] ]}.

Definition memory_a_x : Memory := {[ 1%nat := [param_a_x; param_b_x] ]}.

Definition memory_a_ref_a : Memory := {[ 1%nat := [param_a_ref_a] ]}.

Definition memory_a_ref_a_x : Memory := {[ 1%nat := [param_a_ref_a_x] ]}.

(** * The proofs *)

(** ** Reasoning about storage calls *)

Lemma post_Ok {A} (m : M A) c Q E a c' :
  post m c Q E -> m c = (Ok a, c') -> Q a c'.
Proof. unfold post. intros H Hm. by rewrite Hm in H. Qed.

Lemma post_Err {A} (m : M A) c Q E e c' :
  post m c Q E -> m c = (Err e, c') -> E e c'.
Proof. unfold post. intros H Hm. by rewrite Hm in H. Qed.

Lemma post_mono {A} (m : M A) c (Q Q' : A -> Conn -> Prop) (E E' : error -> Conn -> Prop) :
  post m c Q E ->
  (forall a c', Q a c' -> Q' a c') ->
  (forall e c', E e c' -> E' e c') ->
  post m c Q' E'.
Proof. unfold post. destruct (m c) as [[a|e] c']; eauto. Qed.

Lemma post_ret {A} (a : A) c (Q : A -> Conn -> Prop) E :
  Q a c -> post (ret a) c Q E.
Proof. done. Qed.

Lemma post_bind {A B} (m : M A) (k : A -> M B) c (Q : B -> Conn -> Prop) E :
  post m c (λ a c1, post (k a) c1 Q E) E -> post (bind m k) c Q E.
Proof. unfold post, bind. by destruct (m c) as [[a|e] c1]. Qed.

Lemma post_engine {A} st (run : Z -> Database -> A * Database) c
  (Q : A -> Conn -> Prop) (E : error -> Conn -> Prop) :
  (forall e fs, faults c = Some e :: fs ->
                E e (mkConn (data c) fs (journal c ++ [st]) (now c))) ->
  Q (run (now c) (data c)).1
    (mkConn (run (now c) (data c)).2 (tail (faults c)) (journal c ++ [st]) (now c)) ->
  post (engine st run) c Q E.
Proof.
  intros HE HQ. unfold post, engine.
  destruct (faults c) as [|[e|] fs] eqn:Hf; simpl in *;
    destruct (run (now c) (data c)); eauto.
Qed.

Lemma post_deferRollback {A} tx (body : M A) c (Q : A -> Conn -> Prop) E :
  post body c Q (λ e c', E e (Rollback tx c')) ->
  post (deferRollback tx body) c Q E.
Proof. unfold post, deferRollback. by destruct (body c) as [[a|e] c']. Qed.

Ltac post_step :=
  lazymatch goal with
  | |- post (ret _) _ _ _ => apply post_ret
  | |- post (bind _ _) _ _ _ => apply post_bind
  | |- post (deferRollback _ _) _ _ _ => apply post_deferRollback
  | |- post (engine _ _) _ _ _ => apply post_engine; [intros ? ? ? | ]
  end;
  cbn beta iota delta [data faults journal now fst snd Rollback].

Ltac post_run := repeat post_step.

(** ** What the calls of the stage store leave behind when they succeed *)

Lemma leaves_intro d c sent c' :
  data c' = d -> now c' = now c -> journal c' = journal c ++ sent ->
  leaves d c sent c'.
Proof. by repeat split. Qed.

Lemma InsertStagePrequisites_post s c :
  post (InsertStagePrequisites s) c
       (λ _ c', leaves (InsertStagePrequisites_data s (now c) (data c)) c
                       (InsertStagePrequisites_sent s) c')
       (λ _ _, True).
Proof.
  unfold InsertStagePrequisites, InsertStagePrequisites_data,
    InsertStagePrequisites_sent, UpdatePipelineLastModified, QueryRow, Exec.
  destruct (0 <? length (Prerequisites s))%nat; post_run; try done;
    apply leaves_intro; simpl; rewrite <- ?app_assoc; done.
Qed.

Lemma UpdateStage_post s c :
  post (UpdateStage s) c
       (λ _ c', leaves (UpdateStage_data s (now c) (data c)) c (UpdateStage_sent s) c')
       (λ _ _, True).
Proof.
  unfold UpdateStage, deleteStagePrerequisites, Exec.
  post_run; try done.
  eapply post_mono; [apply InsertStagePrequisites_post | | done].
  intros [] c' (Hd & Hn & Hj); simpl in *.
  apply leaves_intro; try done.
  rewrite Hj. unfold UpdateStage_sent. by rewrite <- !app_assoc.
Qed.

Lemma InsertStage_post s c :
  post (InsertStage s) c
       (λ s' c', s' = inserted s (data c) ∧
                 leaves (InsertStage_data s (now c) (data c)) c
                        (InsertStageRow (PipelineID s) (Stage_Name s) (BuildOrder s)
                         :: InsertStagePrequisites_sent (inserted s (data c))) c')
       (λ _ _, True).
Proof.
  unfold InsertStage, QueryRow.
  post_run; try done.
  eapply post_mono; [apply InsertStagePrequisites_post | | done].
  intros [] c' (Hd & Hn & Hj); simpl in *.
  post_run. split; [done|].
  apply leaves_intro; try done.
  rewrite Hj. by rewrite <- app_assoc.
Qed.

Lemma DeleteStageByID_post s userID c :
  post (DeleteStageByID s userID) c
       (λ _ c', leaves (DeleteStageByID_data s userID (data c)) c
                       (DeleteStageByID_sent s userID (data c)) c')
       (λ _ _, True).
Proof.
  unfold DeleteStageByID, CountStageByPipelineID, DeletePipelineActionByStage,
    deleteStageByID, deleteStagePrerequisites, moveDownStages, QueryRow, Exec.
  post_run; try done.
  apply leaves_intro; try done.
  simpl. by rewrite <- !app_assoc.
Qed.

Lemma MoveStage_shift_post s newBuildOrder c :
  post (if decide (newBuildOrder < BuildOrder s)
        then moveUpStages (PipelineID s) (BuildOrder s) newBuildOrder
        else if decide (BuildOrder s < newBuildOrder)
        then moveDownStages (PipelineID s) (BuildOrder s) newBuildOrder
        else ret tt) c
       (λ _ c', leaves (MoveStage_shift s newBuildOrder (data c)) c
                       (MoveStage_shift_sent s newBuildOrder) c')
       (λ _ _, True).
Proof.
  unfold MoveStage_shift, MoveStage_shift_sent, moveUpStages, moveDownStages, Exec.
  repeat case_decide; post_run; try done.
  apply leaves_intro; try done. by rewrite app_nil_r.
Qed.

(** A move that fails leaves the tables as they were: the deferred
    [tx.Rollback()] undoes whatever the statements before the failure did. *)
Lemma MoveStage_post s newBuildOrder c :
  post (MoveStage s newBuildOrder) c
       (λ s' c', s' = with_BuildOrder newBuildOrder s ∧
                 leaves (MoveStage_data s newBuildOrder (now c) (data c)) c
                        (MoveStage_sent s newBuildOrder) c')
       (λ _ c', refused c c').
Proof.
  unfold MoveStage, Begin, Commit.
  post_run; try done.
  eapply post_mono; [apply MoveStage_shift_post | | done].
  intros [] c1 (Hd1 & Hn1 & Hj1); simpl in *.
  post_run.
  eapply post_mono; [apply UpdateStage_post | | done].
  intros [] c2 (Hd2 & Hn2 & Hj2); simpl in *.
  post_run; [ done | ].
  split; [done|]. apply leaves_intro; simpl.
  - rewrite Hd2, Hn1, Hd1. done.
  - congruence.
  - rewrite Hj2, Hj1. unfold MoveStage_sent. by rewrite <- !app_assoc.
Qed.

(** ** Which table a statement touches *)

Lemma pipeline_stage_InsertStagePrequisites_data s t d :
  pipeline_stage (InsertStagePrequisites_data s t d) = pipeline_stage d.
Proof.
  unfold InsertStagePrequisites_data. by destruct (0 <? length (Prerequisites s))%nat.
Qed.

Lemma pipeline_stage_UpdateStage_data s t d :
  pipeline_stage (UpdateStage_data s t d) =
  (λ r, if decide (row_id r = ID s)
        then mkStageRow (row_id r) (row_pipeline_id r) (Stage_Name s) (BuildOrder s) (Enabled s)
        else r) <$> pipeline_stage d.
Proof.
  unfold UpdateStage_data. by rewrite pipeline_stage_InsertStagePrequisites_data.
Qed.

Lemma pipeline_stage_MoveStage_shift s o' d :
  pipeline_stage (MoveStage_shift s o' d) =
  (λ r, if decide (o' < BuildOrder s)
        then if decide (row_build_order r < BuildOrder s ∧ o' ≤ row_build_order r ∧
                        row_pipeline_id r = PipelineID s)
             then set_build_order (row_build_order r + 1) r else r
        else if decide (BuildOrder s < o')
        then if decide (row_build_order r ≤ o' ∧ BuildOrder s < row_build_order r ∧
                        row_pipeline_id r = PipelineID s)
             then set_build_order (row_build_order r - 1) r else r
        else r) <$> pipeline_stage d.
Proof.
  unfold MoveStage_shift. repeat case_decide; simpl; try done.
  by rewrite list_fmap_id.
Qed.

(** ** Moving a stage, as the specification words it *)

Lemma set_build_order_id r : set_build_order (row_build_order r) r = r.
Proof. by destruct r. Qed.

Lemma pipeline_stage_MoveStage_data s o' t d :
  pipeline_stage (MoveStage_data s o' t d) = moveStage_row s o' <$> pipeline_stage d.
Proof.
  unfold MoveStage_data.
  rewrite pipeline_stage_UpdateStage_data, pipeline_stage_MoveStage_shift.
  rewrite <- list_fmap_compose. apply list_fmap_ext. intros _ r _. simpl.
  unfold moveStage_row, shifted.
  repeat case_decide; simpl in *; try done; try lia;
    rewrite ?set_build_order_id; try done; try (exfalso; lia).
Qed.

(** C2.  Moving the stage [s], which stands at build order [BuildOrder s], to
    build order [o']: when the move succeeds the stage table is the old one
    with every row rewritten by [moveStage_row].  The moved stage (found by
    its id) is written with build order [o'] and the name and flag of the
    struct; of the other stages of its pipeline, exactly those with a build
    order in [[o', o)] gain one when [o' < o], exactly those with a build
    order in [(o, o']] lose one when [o < o'], and the rest keep theirs; the
    stages of other pipelines are untouched.  No row is added, dropped or
    reordered. *)
Theorem MoveStage_shifts_the_range s o' c s' c' :
  MoveStage s o' c = (Ok s', c') ->
  pipeline_stage (data c') = moveStage_row s o' <$> pipeline_stage (data c).
Proof.
  intros Hrun.
  destruct (post_Ok _ _ _ _ _ _ (MoveStage_post s o' c) Hrun) as (_ & Hd & _).
  rewrite Hd. apply pipeline_stage_MoveStage_data.
Qed.

Lemma MoveStage_shifts_the_range_witness :
  pipeline_stage (data (MoveStage (mkStage 14 1 "deploy" 4 true []) 2 (conn db4)).2) =
  [mkStageRow 10 1 "build" 1 true; mkStageRow 11 1 "test" 3 true;
   mkStageRow 12 2 "other" 1 true;
   mkStageRow 13 1 "package" 4 true; mkStageRow 14 1 "deploy" 2 true].
Proof.
  rewrite (MoveStage_shifts_the_range (mkStage 14 1 "deploy" 4 true []) 2 (conn db4)
             (mkStage 14 1 "deploy" 2 true [])
             (MoveStage (mkStage 14 1 "deploy" 4 true []) 2 (conn db4)).2).
  - reflexivity.
  - reflexivity.
Defined.

(** ** Lists of build orders *)

Lemma dense_iff (l : list Z) :
  dense l <-> NoDup l ∧ forall x, x ∈ l -> 1 ≤ x ≤ Z.of_nat (length l).
Proof.
  unfold dense. split.
  - intros H. split.
    + rewrite H. apply NoDup_seqZ.
    + intros x Hx. rewrite H in Hx. apply elem_of_seqZ in Hx. lia.
  - intros [Hnd Hb]. apply submseteq_length_Permutation.
    + apply NoDup_submseteq; [done|].
      intros x Hx. apply elem_of_seqZ. specialize (Hb x Hx). lia.
    + rewrite length_seqZ. lia.
Qed.

Lemma dense_Permutation (l k : list Z) : l ≡ₚ k -> dense l -> dense k.
Proof. unfold dense. intros H Hl. by rewrite <- H. Qed.

Lemma dense_nil : dense [].
Proof. unfold dense. simpl. reflexivity. Qed.

Lemma NoDup_fmap_eq {A B} (f : A -> B) (l : list A) x y :
  NoDup (f <$> l) -> x ∈ l -> y ∈ l -> f x = f y -> x = y.
Proof.
  induction l as [|a l IH]; simpl; intros Hnd Hx Hy Hf.
  - by apply elem_of_nil in Hx.
  - apply NoDup_cons in Hnd as [Hna Hnd].
    apply elem_of_cons in Hx as [->|Hx]; apply elem_of_cons in Hy as [->|Hy].
    + done.
    + exfalso. apply Hna. rewrite Hf. by apply list_elem_of_fmap_2.
    + exfalso. apply Hna. rewrite <- Hf. by apply list_elem_of_fmap_2.
    + by apply IH.
Qed.

Lemma NoDup_fmap_filter {A B} (f : A -> B) (P : A -> Prop) `{!forall x, Decision (P x)}
  (l : list A) :
  NoDup (f <$> l) -> NoDup (f <$> filter P l).
Proof.
  induction l as [|a l IH]; simpl; [done|].
  intros [Hna Hnd]%NoDup_cons. rewrite filter_cons.
  case_decide; [|by apply IH].
  simpl. apply NoDup_cons. split; [|by apply IH].
  intros (y & Hy & Hin)%list_elem_of_fmap. apply Hna.
  apply list_elem_of_filter in Hin as [_ Hin].
  rewrite Hy. by apply list_elem_of_fmap_2.
Qed.

Lemma filter_fmap_preserved {A} (P : A -> Prop) `{!forall x, Decision (P x)}
  (f : A -> A) (l : list A) :
  (forall x, P (f x) <-> P x) -> filter P (f <$> l) = f <$> filter P l.
Proof.
  intros Hf. induction l as [|a l IH]; [done|].
  rewrite fmap_cons, !filter_cons, IH. pose proof (Hf a).
  repeat case_decide; try tauto; done.
Qed.

Lemma filter_all {A} (P : A -> Prop) `{!forall x, Decision (P x)} (l : list A) :
  (forall x, x ∈ l -> P x) -> filter P l = l.
Proof.
  induction l as [|a l IH]; [done|]. intros Hall.
  rewrite filter_cons, decide_True by (apply Hall; by left).
  f_equal. apply IH. intros x Hx. apply Hall. by right.
Qed.

(** Taking the row [m] out of a table keyed by [f]. *)
Lemma filter_key_other {A B} `{!EqDecision B} (f : A -> B) (l : list A) m :
  NoDup (f <$> l) -> m ∈ l -> l ≡ₚ m :: filter (λ r, f r ≠ f m) l.
Proof.
  induction l as [|a l IH]; simpl; intros Hnd Hm.
  - by apply elem_of_nil in Hm.
  - apply NoDup_cons in Hnd as [Hna Hnd]. rewrite filter_cons.
    apply elem_of_cons in Hm as [->|Hm].
    + case_decide; [done|]. f_equiv.
      clear IH. induction l as [|b l IH]; [done|].
      apply NoDup_cons in Hnd as [_ Hnd].
      rewrite filter_cons. case_decide as Hb.
      * f_equiv. apply IH; [|done].
        intros Hin. apply Hna. simpl. by apply elem_of_cons; right.
      * exfalso. apply Hna. simpl. apply elem_of_cons. left.
        by destruct (decide (f b = f a)).
    + case_decide as Ha.
      * rewrite (IH Hnd Hm) at 1. apply Permutation_swap.
      * exfalso. apply Hna.
        assert (f a = f m) as -> by (by destruct (decide (f a = f m))).
        by apply list_elem_of_fmap_2.
Qed.

(** ** The invariant under each operation *)

Lemma count_stages_length p d :
  count_stages p d = Z.of_nat (length (build_orders p d)).
Proof. unfold count_stages, build_orders. by rewrite length_fmap. Qed.

Lemma stored_in_pipeline d s :
  stored d s ->
  exists m, m ∈ stages_of (PipelineID s) d ∧ m ∈ pipeline_stage d ∧
            row_id m = ID s ∧ row_build_order m = BuildOrder s.
Proof.
  intros (m & Hm & Hid & Hpid & Hbo). exists m. repeat split; try done.
  unfold stages_of. by apply list_elem_of_filter.
Qed.

Lemma stages_of_ids_NoDup p d :
  primary_keys d -> NoDup (row_id <$> stages_of p d).
Proof. intros [Hnd _]. by apply NoDup_fmap_filter. Qed.

Lemma other_pipeline_other_id d s q r :
  primary_keys d -> stored d s -> q ≠ PipelineID s ->
  r ∈ stages_of q d -> row_id r ≠ ID s.
Proof.
  intros [Hnd _] (m & Hm & Hid & Hpid & _) Hq Hr Heq.
  apply list_elem_of_filter in Hr as [Hrq Hr].
  assert (r = m)
    by (apply (NoDup_fmap_eq row_id (pipeline_stage d)); [done|done|done|congruence]).
  congruence.
Qed.

Lemma moved_order_range n o o' x :
  1 ≤ o ≤ n -> 1 ≤ o' ≤ n -> 1 ≤ x ≤ n -> 1 ≤ moved_order o o' x ≤ n.
Proof. unfold moved_order, shifted. repeat case_decide; lia. Qed.

Lemma moved_order_inj n o o' x y :
  1 ≤ o ≤ n -> 1 ≤ o' ≤ n -> 1 ≤ x ≤ n -> 1 ≤ y ≤ n ->
  moved_order o o' x = moved_order o o' y -> x = y.
Proof. unfold moved_order, shifted. repeat case_decide; lia. Qed.

Lemma dense_moved_order o o' (l : list Z) :
  dense l -> o ∈ l -> 1 ≤ o' ≤ Z.of_nat (length l) ->
  dense (moved_order o o' <$> l).
Proof.
  intros [Hnd Hb]%dense_iff Ho Ho'. apply dense_iff. split.
  - apply NoDup_fmap_2_strong; [|done].
    intros x y Hx Hy. eapply moved_order_inj; eauto.
  - intros x (y & -> & Hy)%list_elem_of_fmap. rewrite length_fmap.
    apply moved_order_range; auto.
Qed.

Lemma stages_of_MoveStage_data q s o' t d :
  stages_of q (MoveStage_data s o' t d) = moveStage_row s o' <$> stages_of q d.
Proof.
  unfold stages_of. rewrite pipeline_stage_MoveStage_data.
  apply filter_fmap_preserved. intros r. unfold moveStage_row.
  repeat case_decide; by destruct r.
Qed.

Lemma MoveStage_data_invariant s o' t d :
  primary_keys d -> build_order_invariant d ->
  stored d s -> 1 ≤ o' ≤ count_stages (PipelineID s) d ->
  build_order_invariant (MoveStage_data s o' t d).
Proof.
  intros Hpk Hinv Hs Ho' q. unfold build_orders.
  rewrite stages_of_MoveStage_data, <- list_fmap_compose.
  destruct (decide (q = PipelineID s)) as [->|Hq].
  - destruct (stored_in_pipeline _ _ Hs) as (m & Hm & _ & Hid & Hbo).
    pose proof (Hinv (PipelineID s)) as Hd.
    pose proof (stages_of_ids_NoDup (PipelineID s) d Hpk) as Hids.
    assert (NoDup (build_orders (PipelineID s) d)) as Hords
      by (by apply dense_iff in Hd as [? _]).
    rewrite (list_fmap_ext _ (moved_order (BuildOrder s) o' ∘ row_build_order)).
    + rewrite list_fmap_compose. apply dense_moved_order; [done| |].
      * rewrite <- Hbo. by apply list_elem_of_fmap_2.
      * by rewrite count_stages_length in Ho'.
    + intros _ r Hr%list_elem_of_lookup_2. simpl.
      unfold moveStage_row, moved_order.
      apply list_elem_of_filter in Hr as Hr'. destruct Hr' as [Hrp _].
      destruct (decide (row_id r = ID s)) as [Heq|Hne].
      * assert (r = m) as ->
          by (apply (NoDup_fmap_eq row_id (stages_of (PipelineID s) d));
              [done|done|done|congruence]).
        simpl. by rewrite Hbo, decide_True.
      * rewrite decide_True by done. simpl.
        rewrite decide_False; [done|].
        intros Heq. apply Hne.
        assert (r = m) as ->
          by (apply (NoDup_fmap_eq row_build_order (stages_of (PipelineID s) d));
              [done|done|done|congruence]).
        done.
  - rewrite (list_fmap_ext _ row_build_order); [apply Hinv|].
    intros _ r Hr%list_elem_of_lookup_2. simpl. unfold moveStage_row.
    pose proof (other_pipeline_other_id d s q r Hpk Hs Hq Hr).
    apply list_elem_of_filter in Hr as [Hrp _].
    rewrite decide_False by done. rewrite decide_False by congruence. done.
Qed.

Lemma pipeline_stage_id_seq_InsertStagePrequisites_data s t d :
  pipeline_stage_id_seq (InsertStagePrequisites_data s t d) = pipeline_stage_id_seq d.
Proof.
  unfold InsertStagePrequisites_data. by destruct (0 <? length (Prerequisites s))%nat.
Qed.

Lemma pipeline_stage_id_seq_MoveStage_data s o' t d :
  pipeline_stage_id_seq (MoveStage_data s o' t d) = pipeline_stage_id_seq d.
Proof.
  unfold MoveStage_data, UpdateStage_data, MoveStage_shift.
  rewrite pipeline_stage_id_seq_InsertStagePrequisites_data.
  by repeat case_decide.
Qed.

Lemma row_id_moveStage_row s o' r : row_id (moveStage_row s o' r) = row_id r.
Proof. unfold moveStage_row. by repeat case_decide. Qed.

Lemma MoveStage_data_primary_keys s o' t d :
  primary_keys d -> primary_keys (MoveStage_data s o' t d).
Proof.
  intros [Hnd Hlt]. split.
  - rewrite pipeline_stage_MoveStage_data, <- list_fmap_compose.
    rewrite (list_fmap_ext _ row_id); [done|].
    intros _ r _. apply row_id_moveStage_row.
  - rewrite pipeline_stage_MoveStage_data, pipeline_stage_id_seq_MoveStage_data.
    intros r' (r & -> & Hr)%list_elem_of_fmap.
    rewrite row_id_moveStage_row. by apply Hlt.
Qed.

(** *** Deleting *)

Lemma pipeline_stage_DeleteStageByID_data s userID d :
  pipeline_stage (DeleteStageByID_data s userID d) =
  (λ r, if decide (row_build_order r ≤ count_stages (PipelineID s) d ∧
                   BuildOrder s < row_build_order r ∧
                   row_pipeline_id r = PipelineID s)
        then set_build_order (row_build_order r - 1) r else r)
  <$> filter (λ r, row_id r ≠ ID s) (pipeline_stage d).
Proof. done. Qed.

Lemma filter_filter_swap {A} (P Q : A -> Prop)
  `{!forall x, Decision (P x)} `{!forall x, Decision (Q x)} (l : list A) :
  filter P (filter Q l) = filter Q (filter P l).
Proof.
  induction l as [|a l IH]; [done|].
  rewrite !filter_cons. repeat case_decide; rewrite ?filter_cons;
    repeat case_decide; try tauto; by rewrite IH.
Qed.

Lemma stages_of_DeleteStageByID_data q s userID d :
  stages_of q (DeleteStageByID_data s userID d) =
  (λ r, if decide (row_build_order r ≤ count_stages (PipelineID s) d ∧
                   BuildOrder s < row_build_order r ∧
                   row_pipeline_id r = PipelineID s)
        then set_build_order (row_build_order r - 1) r else r)
  <$> filter (λ r, row_id r ≠ ID s) (stages_of q d).
Proof.
  unfold stages_of at 1. rewrite pipeline_stage_DeleteStageByID_data.
  rewrite filter_fmap_preserved.
  - unfold stages_of. by rewrite filter_filter_swap.
  - intros r. case_decide; by destruct r.
Qed.

Lemma closed_up_range n o x :
  1 ≤ o ≤ n -> 1 ≤ x ≤ n -> x ≠ o -> 1 ≤ closed_up o n x ≤ n - 1.
Proof. unfold closed_up. case_decide; lia. Qed.

Lemma closed_up_inj n o x y :
  x ≠ o -> y ≠ o -> x ≤ n -> y ≤ n ->
  closed_up o n x = closed_up o n y -> x = y.
Proof. unfold closed_up. repeat case_decide; lia. Qed.

Lemma dense_closed_up o (l : list Z) :
  dense (o :: l) -> dense (closed_up o (Z.of_nat (S (length l))) <$> l).
Proof.
  intros [[Ho Hnd]%NoDup_cons Hb]%dense_iff. simpl in Hb.
  assert (1 ≤ o ≤ Z.of_nat (S (length l))) by (apply Hb; by left).
  apply dense_iff. split.
  - apply NoDup_fmap_2_strong; [|done].
    intros x y Hx Hy. apply closed_up_inj.
    + by intros ->.
    + by intros ->.
    + apply Hb. by right.
    + apply Hb. by right.
  - intros x (y & -> & Hy)%list_elem_of_fmap. rewrite length_fmap.
    assert (1 ≤ closed_up o (Z.of_nat (S (length l))) y ≤ Z.of_nat (S (length l)) - 1).
    { apply closed_up_range; [done| |].
      - apply Hb. by right.
      - by intros ->. }
    lia.
Qed.

Lemma DeleteStageByID_data_invariant s userID d :
  primary_keys d -> build_order_invariant d -> stored d s ->
  build_order_invariant (DeleteStageByID_data s userID d).
Proof.
  intros Hpk Hinv Hs q. unfold build_orders.
  rewrite stages_of_DeleteStageByID_data, <- list_fmap_compose.
  destruct (decide (q = PipelineID s)) as [->|Hq].
  - destruct (stored_in_pipeline _ _ Hs) as (m & Hm & _ & Hid & Hbo).
    pose proof (Hinv (PipelineID s)) as Hd.
    pose proof (stages_of_ids_NoDup (PipelineID s) d Hpk) as Hids.
    pose proof (filter_key_other row_id _ m Hids Hm) as Hperm.
    rewrite Hid in Hperm.
    set (rest := filter (λ r, row_id r ≠ ID s) (stages_of (PipelineID s) d)) in *.
    assert (count_stages (PipelineID s) d = Z.of_nat (S (length (row_build_order <$> rest))))
      as HN.
    { unfold count_stages. rewrite Hperm, length_fmap. done. }
    assert (dense (BuildOrder s :: (row_build_order <$> rest))) as Hd'.
    { eapply dense_Permutation; [|exact Hd].
      unfold build_orders. by rewrite Hperm, fmap_cons, Hbo. }
    rewrite (list_fmap_ext _
      (closed_up (BuildOrder s) (Z.of_nat (S (length (row_build_order <$> rest))))
       ∘ row_build_order)).
    + rewrite list_fmap_compose. by apply dense_closed_up.
    + intros _ r Hr%list_elem_of_lookup_2. simpl. rewrite HN.
      apply list_elem_of_filter in Hr as [_ [Hrp _]%list_elem_of_filter].
      unfold closed_up. repeat case_decide; simpl; try done; tauto.
  - rewrite (list_fmap_ext _ row_build_order).
    + rewrite filter_all; [apply Hinv|].
      intros r Hr. by apply (other_pipeline_other_id d s q).
    + intros _ r Hr%list_elem_of_lookup_2. simpl.
      apply list_elem_of_filter in Hr as [_ [Hrp _]%list_elem_of_filter].
      rewrite decide_False; [done|]. intros (_ & _ & ?). congruence.
Qed.

Lemma DeleteStageByID_data_primary_keys s userID d :
  primary_keys d -> primary_keys (DeleteStageByID_data s userID d).
Proof.
  intros [Hnd Hlt]. split.
  - rewrite pipeline_stage_DeleteStageByID_data, <- list_fmap_compose.
    rewrite (list_fmap_ext _ row_id).
    + by apply NoDup_fmap_filter.
    + intros _ r _. simpl. by case_decide.
  - rewrite pipeline_stage_DeleteStageByID_data.
    intros r' (r & -> & [_ Hr]%list_elem_of_filter)%list_elem_of_fmap.
    specialize (Hlt r Hr). by case_decide.
Qed.

(** *** Inserting *)

Lemma pipeline_stage_InsertStage_data s t d :
  pipeline_stage (InsertStage_data s t d) =
  pipeline_stage d ++
  [mkStageRow (pipeline_stage_id_seq d) (PipelineID s) (Stage_Name s) (BuildOrder s) true].
Proof.
  unfold InsertStage_data. by rewrite pipeline_stage_InsertStagePrequisites_data.
Qed.

Lemma dense_snoc (l : list Z) :
  dense l -> dense (l ++ [Z.of_nat (length l) + 1]).
Proof.
  unfold dense. intros H.
  rewrite length_app. simpl. rewrite Nat.add_1_r, seqZ_S.
  rewrite <- H. by rewrite Z.add_comm.
Qed.

Lemma InsertStage_data_invariant s t d :
  build_order_invariant d ->
  BuildOrder s = count_stages (PipelineID s) d + 1 ->
  build_order_invariant (InsertStage_data s t d).
Proof.
  intros Hinv Hbo q. unfold build_orders, stages_of.
  rewrite pipeline_stage_InsertStage_data, filter_app, fmap_app.
  rewrite filter_cons, filter_nil. simpl.
  case_decide as Hq; simpl.
  - subst q. rewrite Hbo, count_stages_length. apply dense_snoc, Hinv.
  - rewrite app_nil_r. apply Hinv.
Qed.

Lemma InsertStage_data_primary_keys s t d :
  primary_keys d -> primary_keys (InsertStage_data s t d).
Proof.
  intros [Hnd Hlt].
  assert (pipeline_stage_id_seq (InsertStage_data s t d) = pipeline_stage_id_seq d + 1) as Hseq.
  { unfold InsertStage_data. by rewrite pipeline_stage_id_seq_InsertStagePrequisites_data. }
  split.
  - rewrite pipeline_stage_InsertStage_data, fmap_app. simpl.
    apply NoDup_app. repeat split; [done| |apply NoDup_singleton].
    intros x (r & -> & Hr)%list_elem_of_fmap Hx%list_elem_of_singleton.
    specialize (Hlt r Hr). lia.
  - rewrite pipeline_stage_InsertStage_data, Hseq.
    intros r [Hr| ->%list_elem_of_singleton]%elem_of_app.
    + specialize (Hlt r Hr). lia.
    + simpl. lia.
Qed.

(** *** One operation, then any number of them *)

Lemma perform_Ok op c c' :
  perform op c = (Ok tt, c') ->
  match op with
  | OpInsertStage s => data c' = InsertStage_data s (now c) (data c)
  | OpDeleteStage s userID => data c' = DeleteStageByID_data s userID (data c)
  | OpMoveStage s o' => data c' = MoveStage_data s o' (now c) (data c)
  end.
Proof.
  destruct op as [s|s userID|s o']; simpl; intros Hrun.
  - unfold bind, ret in Hrun.
    destruct (InsertStage s c) as [[s'|e] c1] eqn:Hins; [|done].
    simplify_eq/=.
    by destruct (post_Ok _ _ _ _ _ _ (InsertStage_post s c) Hins) as (_ & Hd & _).
  - by destruct (post_Ok _ _ _ _ _ _ (DeleteStageByID_post s userID c) Hrun) as (Hd & _).
  - unfold bind, ret in Hrun.
    destruct (MoveStage s o' c) as [[s'|e] c1] eqn:Hmv; [|done].
    simplify_eq/=.
    by destruct (post_Ok _ _ _ _ _ _ (MoveStage_post s o' c) Hmv) as (_ & Hd & _).
Qed.

Lemma perform_preserves op c c' :
  primary_keys (data c) -> build_order_invariant (data c) ->
  admissible (data c) op ->
  perform op c = (Ok tt, c') ->
  primary_keys (data c') ∧ build_order_invariant (data c').
Proof.
  intros Hpk Hinv Hadm Hrun. apply perform_Ok in Hrun.
  destruct op as [s|s userID|s o']; simpl in *; rewrite Hrun.
  - split; [by apply InsertStage_data_primary_keys|by apply InsertStage_data_invariant].
  - split; [by apply DeleteStageByID_data_primary_keys
           |by apply DeleteStageByID_data_invariant].
  - destruct Hadm as [Hs Ho'].
    split; [by apply MoveStage_data_primary_keys|by apply MoveStage_data_invariant].
Qed.

Lemma MoveStage_failure_rolls_back s o' c e c' :
  perform (OpMoveStage s o') c = (Err e, c') -> data c' = data c.
Proof.
  simpl. unfold bind, ret. intros Hrun.
  destruct (MoveStage s o' c) as [[s'|e'] c1] eqn:Hmv; [done|].
  simplify_eq/=.
  exact (post_Err _ _ _ _ _ _ (MoveStage_post s o' c) Hmv).
Qed.

(** The two properties speak of the stage table and its sequence alone. *)
Lemma same_stage_table d d' :
  pipeline_stage d' = pipeline_stage d ->
  pipeline_stage_id_seq d' = pipeline_stage_id_seq d ->
  primary_keys d -> build_order_invariant d ->
  primary_keys d' ∧ build_order_invariant d'.
Proof.
  intros Hrows Hseq Hpk Hinv. split.
  - unfold primary_keys in *. by rewrite Hrows, Hseq.
  - intros q. specialize (Hinv q). unfold build_orders, stages_of in *.
    by rewrite Hrows.
Qed.

(** An insert that fails has written nothing to the stage table, when the
    engine refuses the INSERT of the row, or has appended the row, when the
    engine refuses a statement after it: [InsertStage] undoes nothing. *)
Lemma InsertStage_failure_post s c :
  post (InsertStage s) c
       (λ _ _, True)
       (λ _ c',
          (pipeline_stage (data c') = pipeline_stage (data c) ∧
           pipeline_stage_id_seq (data c') = pipeline_stage_id_seq (data c)) ∨
          (pipeline_stage (data c') = pipeline_stage (InsertStage_data s (now c) (data c)) ∧
           pipeline_stage_id_seq (data c')
           = pipeline_stage_id_seq (InsertStage_data s (now c) (data c)))).
Proof.
  rewrite pipeline_stage_InsertStage_data.
  assert (pipeline_stage_id_seq (InsertStage_data s (now c) (data c))
          = pipeline_stage_id_seq (data c) + 1) as ->.
  { unfold InsertStage_data. by rewrite pipeline_stage_id_seq_InsertStagePrequisites_data. }
  unfold InsertStage, InsertStagePrequisites, UpdatePipelineLastModified, QueryRow, Exec.
  cbn [Prerequisites PipelineID ID].
  destruct (0 <? length (Prerequisites s))%nat; post_run; try done; try (by left);
    by right.
Qed.

Lemma InsertStage_failure_preserves s c e c' :
  primary_keys (data c) -> build_order_invariant (data c) ->
  admissible (data c) (OpInsertStage s) ->
  perform (OpInsertStage s) c = (Err e, c') ->
  primary_keys (data c') ∧ build_order_invariant (data c').
Proof.
  intros Hpk Hinv Hadm Hrun. simpl in Hrun, Hadm. unfold bind, ret in Hrun.
  destruct (InsertStage s c) as [[s'|e'] c1] eqn:Hins; [done|].
  simplify_eq/=.
  destruct (post_Err _ _ _ _ _ _ (InsertStage_failure_post s c) Hins)
    as [[Hrows Hseq]|[Hrows Hseq]].
  - by apply (same_stage_table (data c)).
  - apply (same_stage_table (InsertStage_data s (now c) (data c))); try done.
    + by apply InsertStage_data_primary_keys.
    + by apply InsertStage_data_invariant.
Qed.

Lemma history_preserves c c' :
  history c c' ->
  primary_keys (data c) -> build_order_invariant (data c) ->
  primary_keys (data c') ∧ build_order_invariant (data c').
Proof.
  induction 1 as [c|c op c1 c2 Hadm Hrun _ IH|c s o' e c1 c2 Hrun _ IH
                 |c s e c1 c2 Hadm Hrun _ IH|c s userID e c1 c2 Hrun _ IH];
    intros Hpk Hinv.
  - done.
  - destruct (perform_preserves op c c1 Hpk Hinv Hadm Hrun). by apply IH.
  - apply MoveStage_failure_rolls_back in Hrun. rewrite Hrun in IH. by apply IH.
  - destruct (InsertStage_failure_preserves s c e c1 Hpk Hinv Hadm Hrun). by apply IH.
  - by apply IH.
Qed.

(** *** The example databases satisfy the invariant *)

Lemma db2_primary_keys : primary_keys db2.
Proof.
  split.
  - by apply (bool_decide_unpack _).
  - apply Forall_forall. by apply (bool_decide_unpack _).
Qed.

Lemma db2_invariant : build_order_invariant db2.
Proof.
  intros q. unfold build_orders, stages_of. simpl.
  rewrite !filter_cons, filter_nil. simpl.
  repeat case_decide; simpl; try lia; unfold dense; simpl; reflexivity.
Qed.

Lemma db4_primary_keys : primary_keys db4.
Proof.
  split.
  - by apply (bool_decide_unpack _).
  - apply Forall_forall. by apply (bool_decide_unpack _).
Qed.

Lemma db4_invariant : build_order_invariant db4.
Proof.
  intros q. unfold build_orders, stages_of. simpl.
  rewrite !filter_cons, filter_nil. simpl.
  repeat case_decide; simpl; try lia; unfold dense; simpl; reflexivity.
Qed.

(** C1, as the code has it.  Starting from tables that satisfy the build-order
    invariant (and whose ids are a primary key), after any sequence of
    operations in which every insert appends ([BuildOrder = count + 1]),
    every delete and move that succeeds names a stage as it is stored, every
    move that succeeds goes to a place between 1 and the stage count, and
    every delete that fails is rolled back by its caller, the build orders of
    every pipeline are again exactly 1..N: after each operation that
    succeeds, after a move that fails, which [MoveStage] rolls back, and
    after an insert that fails, which leaves at most the appended row. *)
Theorem build_order_invariant_preserved c c' :
  primary_keys (data c) ->
  build_order_invariant (data c) ->
  history c c' ->
  build_order_invariant (data c').
Proof. intros Hpk Hinv Hh. by destruct (history_preserves c c' Hh Hpk Hinv). Qed.

Lemma build_order_invariant_preserved_witness :
  build_order_invariant (data run4_end) ∧
  build_orders 1 (data run4_end) = [1; 3; 2; 4; 5; 6].
Proof.
  split; [|reflexivity].
  apply (build_order_invariant_preserved run4_start run4_end).
  - apply db4_primary_keys.
  - apply db4_invariant.
  - eapply (history_success _ (OpInsertStage (mkStage 0 1 "notify" 5 false [])));
      [vm_compute; reflexivity | vm_compute; reflexivity | ].
    eapply (history_failed_move _ (mkStage 10 1 "build" 1 true []) 3);
      [vm_compute; reflexivity | ].
    eapply (history_success _ (OpMoveStage (mkStage 14 1 "deploy" 4 true []) 2));
      [ | vm_compute; reflexivity | ].
    { split; [|vm_compute; split; discriminate].
      exists (mkStageRow 14 1 "deploy" 4 true).
      split; [|done]. simpl. do 4 right. left. }
    eapply (history_success _ (OpDeleteStage (mkStage 11 1 "test" 3 true []) 42));
      [ | vm_compute; reflexivity | ].
    { exists (mkStageRow 11 1 "test" 3 true).
      split; [|done]. simpl. right. left. }
    eapply (history_failed_insert _
              (mkStage 0 1 "audit" 5 false [mkPrerequisite "branch" "master"]));
      [vm_compute; reflexivity | vm_compute; reflexivity | ].
    eapply (history_failed_delete _ (mkStage 13 1 "package" 3 true []) 42);
      [vm_compute; reflexivity | ].
    eapply (history_success _ (OpInsertStage (mkStage 0 1 "report" 6 false [])));
      [vm_compute; reflexivity | vm_compute; reflexivity | ].
    vm_compute. apply history_nil.
Defined.

(** C1, as the specification words it, fails: the store moves a stage to
    whatever place it is given.  In a pipeline of two stages, moving the
    first stage to place 5 succeeds and leaves the build orders 5 and 1. *)
Lemma build_order_invariant_broken_by_move :
  primary_keys db2 ∧ build_order_invariant db2 ∧
  (MoveStage (mkStage 10 1 "build" 1 true []) 5 (conn db2)).1
    = Ok (mkStage 10 1 "build" 5 true []) ∧
  build_orders 1 (data (MoveStage (mkStage 10 1 "build" 1 true []) 5 (conn db2)).2)
    = [5; 1] ∧
  ¬ build_order_invariant (data (MoveStage (mkStage 10 1 "build" 1 true []) 5 (conn db2)).2).
Proof.
  split; [apply db2_primary_keys|]. split; [apply db2_invariant|].
  split; [reflexivity|]. split; [reflexivity|].
  intros Hinv. specialize (Hinv 1).
  assert (5 ∈ seqZ 1 2) as Hin.
  { unfold dense in Hinv. rewrite <- Hinv. vm_compute. by left. }
  apply elem_of_seqZ in Hin. lia.
Qed.

(** ** What [UpdateStage] writes *)

Lemma pipeline_UpdateStage_data s t d :
  pipeline (UpdateStage_data s t d) = stamped_pipeline_rows (PipelineID s) t (pipeline d).
Proof.
  unfold UpdateStage_data, InsertStagePrequisites_data.
  by destruct (0 <? length (Prerequisites s))%nat.
Qed.

Lemma pipeline_stage_prerequisite_UpdateStage_data s t d :
  pipeline_stage_prerequisite (UpdateStage_data s t d) = replaced_prerequisite_rows s d.
Proof.
  unfold UpdateStage_data, InsertStagePrequisites_data, replaced_prerequisite_rows.
  destruct (Prerequisites s) as [|p ps]; simpl; [by rewrite app_nil_r|done].
Qed.

Lemma pipeline_MoveStage_shift s o' d : pipeline (MoveStage_shift s o' d) = pipeline d.
Proof. unfold MoveStage_shift. by repeat case_decide. Qed.

Lemma MoveStage_shift_same s d : MoveStage_shift s (BuildOrder s) d = d.
Proof. unfold MoveStage_shift. repeat case_decide; try lia; done. Qed.

Lemma MoveStage_shift_sent_same s : MoveStage_shift_sent s (BuildOrder s) = [].
Proof. unfold MoveStage_shift_sent. repeat case_decide; try lia; done. Qed.

Lemma with_BuildOrder_same s : with_BuildOrder (BuildOrder s) s = s.
Proof. by destruct s. Qed.

(** C3, as the code has it.  A successful [MoveStage s (BuildOrder s)] shifts
    no stage, but it is not a no-op: between [Begin] and [Commit] it sends the
    statements of [UpdateStage s].  The row of [s] is rewritten from the
    struct (so the build orders are what they were when the struct carries
    the stored one, and the whole stage table is when it also carries the
    stored name and flag), the prerequisite rows of [s] are deleted and those
    of the struct inserted under fresh ids, and the pipeline's
    [last_modified] is set to the current timestamp. *)
Theorem MoveStage_same_place s c s' c' :
  MoveStage s (BuildOrder s) c = (Ok s', c') ->
  s' = s ∧
  journal c' = journal c ++ [TxBegin] ++ UpdateStage_sent s ++ [TxCommit] ∧
  pipeline_stage (data c') = rewritten_stage_rows s (pipeline_stage (data c)) ∧
  ((forall r, r ∈ pipeline_stage (data c) -> row_id r = ID s ->
              row_build_order r = BuildOrder s) ->
   row_build_order <$> pipeline_stage (data c') =
   row_build_order <$> pipeline_stage (data c)) ∧
  ((forall r, r ∈ pipeline_stage (data c) -> row_id r = ID s ->
              row_build_order r = BuildOrder s ∧ row_name r = Stage_Name s ∧
              row_enabled r = Enabled s) ->
   pipeline_stage (data c') = pipeline_stage (data c)) ∧
  pipeline_stage_prerequisite (data c') = replaced_prerequisite_rows s (data c) ∧
  pipeline (data c') = stamped_pipeline_rows (PipelineID s) (now c) (pipeline (data c)).
Proof.
  intros Hrun.
  destruct (post_Ok _ _ _ _ _ _ (MoveStage_post s (BuildOrder s) c) Hrun)
    as (-> & Hd & _ & Hj).
  unfold MoveStage_data, MoveStage_sent in *.
  rewrite with_BuildOrder_same, MoveStage_shift_same in *.
  rewrite MoveStage_shift_sent_same in Hj.
  assert (pipeline_stage (data c') = rewritten_stage_rows s (pipeline_stage (data c))) as Hrows
    by (by rewrite Hd, pipeline_stage_UpdateStage_data).
  repeat split; try done.
  - intros Hbo. rewrite Hrows. unfold rewritten_stage_rows.
    rewrite <- list_fmap_compose. apply list_fmap_ext.
    intros _ r Hr%list_elem_of_lookup_2. simpl.
    case_decide; [|done]. simpl. symmetry. by apply Hbo.
  - intros Hsame. rewrite Hrows. unfold rewritten_stage_rows.
    rewrite <- (list_fmap_id (pipeline_stage (data c))) at 2.
    apply list_fmap_ext.
    intros _ r Hr%list_elem_of_lookup_2. simpl.
    case_decide as Hid; [|done].
    destruct (Hsame r Hr Hid) as (<- & <- & <-). by destruct r.
  - by rewrite Hd, pipeline_stage_prerequisite_UpdateStage_data.
  - by rewrite Hd, pipeline_UpdateStage_data.
Qed.

Lemma MoveStage_same_place_witness :
  pipeline_stage (data (MoveStage deploy2 2 (conn db2)).2) = pipeline_stage db2 ∧
  pipeline_stage_prerequisite (data (MoveStage deploy2 2 (conn db2)).2) =
    [mkPrerequisiteRow 3 11 "branch" "master"; mkPrerequisiteRow 4 11 "env" "prod"] ∧
  pipeline (data (MoveStage deploy2 2 (conn db2)).2) = [mkPipelineRow 1 200].
Proof.
  destruct (MoveStage_same_place deploy2 (conn db2) deploy2
              (MoveStage deploy2 2 (conn db2)).2)
    as (_ & _ & _ & _ & Hrows & Hpre & Hpip).
  - reflexivity.
  - split; [|split].
    + apply Hrows. intros r Hr Hid. simpl in Hr.
      apply elem_of_cons in Hr as [->|Hr]; [done|].
      apply elem_of_cons in Hr as [->|Hr]; [done|].
      by apply elem_of_nil in Hr.
    + exact Hpre.
    + exact Hpip.
Defined.

(** C3, as the specification words it, fails.  The stage is loaded from the
    tables and moved to the place it has: six statements are sent, the
    prerequisite rows come back under new ids, and the pipeline is stamped. *)
Lemma MoveStage_same_place_is_not_a_noop :
  (LoadStage 1 11 (conn db2)).1 = Ok deploy2 ∧
  (MoveStage deploy2 (BuildOrder deploy2) (conn db2)).1 = Ok deploy2 ∧
  journal (MoveStage deploy2 (BuildOrder deploy2) (conn db2)).2 =
    [TxBegin; UpdateStageRow 11 "deploy" 2 true; DeletePrerequisiteRows 11;
     InsertPrerequisiteRows 11 (Prerequisites deploy2); TouchPipeline 1; TxCommit] ∧
  pipeline_stage_prerequisite (data (MoveStage deploy2 (BuildOrder deploy2) (conn db2)).2) =
    [mkPrerequisiteRow 3 11 "branch" "master"; mkPrerequisiteRow 4 11 "env" "prod"] ∧
  pipeline (data (MoveStage deploy2 (BuildOrder deploy2) (conn db2)).2) =
    [mkPipelineRow 1 200] ∧
  data (MoveStage deploy2 (BuildOrder deploy2) (conn db2)).2 ≠ data (conn db2).
Proof. repeat split; try reflexivity. discriminate. Qed.

(** ** Deleting inside a transaction *)

Lemma deleteStage_post stage actorId c :
  post (deleteStage stage actorId) c
       (λ _ c', data c' = DeleteStageByID_data stage actorId (data c))
       (λ _ c', refused c c').
Proof.
  unfold deleteStage, Begin, Commit.
  post_run; try done.
  eapply post_mono; [apply DeleteStageByID_post | | done].
  intros [] c1 (Hd1 & _ & _). simpl in *.
  post_run; done.
Qed.

(** C4.  [deleteStage] is [DeleteStageByID] inside the transaction its caller
    opens.  Whatever step fails -- the BEGIN, the count, the action-placement
    cleanup, the two DELETEs, the shift or the COMMIT -- the tables are
    afterwards what they were before the call: no stage row, prerequisite row
    or build-order shift persists.  In particular, when the engine lets the
    BEGIN and the count through and refuses the cleanup, the call returns
    that error having sent nothing after the cleanup but the ROLLBACK. *)
Theorem deleteStage_failure_rolls_back stage actorId c :
  (forall e c', deleteStage stage actorId c = (Err e, c') -> data c' = data c) ∧
  (forall e fs, faults c = None :: None :: Some e :: fs ->
     exists c', deleteStage stage actorId c = (Err e, c') ∧
                data c' = data c ∧
                journal c' = journal c ++
                  [TxBegin; CountStages (PipelineID stage);
                   DeletePipelineActions (ID stage) actorId; TxRollback]).
Proof.
  split.
  - intros e c' Hrun.
    exact (post_Err _ _ _ _ _ _ (deleteStage_post stage actorId c) Hrun).
  - intros e fs Hf. eexists.
    unfold deleteStage, deferRollback, DeleteStageByID, CountStageByPipelineID,
      DeletePipelineActionByStage, Begin, QueryRow, Exec, bind, engine.
    rewrite Hf. simpl. split; [reflexivity|]. split; [done|].
    simpl. by rewrite <- !app_assoc.
Qed.

Lemma deleteStage_failure_rolls_back_witness :
  (* the shift is refused, after both DELETEs went through *)
  (deleteStage build1 42
     (mkConn db4 [None; None; None; None; None; Some (ErrEngine 3)] [] 200)).1
    = Err (ErrEngine 3) ∧
  data (deleteStage build1 42
     (mkConn db4 [None; None; None; None; None; Some (ErrEngine 3)] [] 200)).2 = db4 ∧
  (* the cleanup is refused *)
  exists c', deleteStage build1 42 (mkConn db4 [None; None; Some (ErrEngine 3)] [] 200)
             = (Err (ErrEngine 3), c') ∧
             data c' = db4 ∧
             journal c' = [TxBegin; CountStages 1; DeletePipelineActions 10 42; TxRollback].
Proof.
  split; [reflexivity|]. split.
  - apply (proj1 (deleteStage_failure_rolls_back build1 42
        (mkConn db4 [None; None; None; None; None; Some (ErrEngine 3)] [] 200))
        (ErrEngine 3)).
    reflexivity.
  - apply (proj2 (deleteStage_failure_rolls_back build1 42
        (mkConn db4 [None; None; Some (ErrEngine 3)] [] 200)) (ErrEngine 3) []).
    reflexivity.
Defined.

(** C10.  Every [UpdateStage] that succeeds has stamped the pipeline the
    struct names, whatever the prerequisite list (an empty one included):
    its last statement is the UPDATE of [pipeline.last_modified], and the
    pipeline table is left with that row at the current timestamp.  So has
    every [MoveStage] that succeeds, whether the place changes or not. *)
Theorem UpdateStage_stamps_the_pipeline s c :
  (forall c', UpdateStage s c = (Ok tt, c') ->
     last (journal c') = Some (TouchPipeline (PipelineID s)) ∧
     pipeline (data c') = stamped_pipeline_rows (PipelineID s) (now c) (pipeline (data c))) ∧
  (forall o' s' c', MoveStage s o' c = (Ok s', c') ->
     TouchPipeline (PipelineID s) ∈ journal c' ∧
     pipeline (data c') = stamped_pipeline_rows (PipelineID s) (now c) (pipeline (data c))).
Proof.
  split.
  - intros c' Hrun.
    destruct (post_Ok _ _ _ _ _ _ (UpdateStage_post s c) Hrun) as (Hd & _ & Hj).
    split.
    + rewrite Hj. unfold UpdateStage_sent, InsertStagePrequisites_sent.
      by rewrite !app_assoc, last_snoc.
    + by rewrite Hd, pipeline_UpdateStage_data.
  - intros o' s' c' Hrun.
    destruct (post_Ok _ _ _ _ _ _ (MoveStage_post s o' c) Hrun) as (_ & Hd & _ & Hj).
    split.
    + rewrite Hj. unfold MoveStage_sent, UpdateStage_sent, InsertStagePrequisites_sent.
      rewrite !elem_of_app. right. right. right. left. right. right.
      by apply list_elem_of_singleton.
    + rewrite Hd. unfold MoveStage_data.
      by rewrite pipeline_UpdateStage_data, pipeline_MoveStage_shift.
Qed.

Lemma UpdateStage_stamps_the_pipeline_witness :
  (last (journal (UpdateStage build1 (conn db2)).2) = Some (TouchPipeline 1) ∧
   pipeline (data (UpdateStage build1 (conn db2)).2) = [mkPipelineRow 1 200]) ∧
  (TouchPipeline 1 ∈ journal (MoveStage build1 1 (conn db2)).2 ∧
   pipeline (data (MoveStage build1 1 (conn db2)).2) = [mkPipelineRow 1 200]).
Proof.
  split.
  - apply (proj1 (UpdateStage_stamps_the_pipeline build1 (conn db2))). reflexivity.
  - apply (proj2 (UpdateStage_stamps_the_pipeline build1 (conn db2)) 1 build1). reflexivity.
Defined.

(** ** Loading *)

Lemma filter_none {A} (P : A -> Prop) `{!forall x, Decision (P x)} (l : list A) :
  (forall x, x ∈ l -> ¬ P x) -> filter P l = [].
Proof.
  induction l as [|a l IH]; [done|]. intros Hnone.
  rewrite filter_cons, decide_False by (apply Hnone; by left).
  apply IH. intros x Hx. apply Hnone. by right.
Qed.

Lemma join_rows_stage (r : StageRow) (pres : list PrerequisiteRow) x :
  x ∈ join_rows pres r -> x.1 = r.
Proof.
  unfold join_rows. destruct (filter _ pres) as [|q qs].
  - by intros ->%list_elem_of_singleton.
  - by intros (q' & -> & _)%list_elem_of_fmap.
Qed.

Lemma left_outer_join_stage stages pres x :
  x ∈ left_outer_join stages pres -> x.1 ∈ stages.
Proof.
  unfold left_outer_join. intros (r & Hx & Hr)%list_elem_of_bind.
  by rewrite (join_rows_stage r pres x Hx).
Qed.

(** The rows the query of [LoadStage] finds for a stored stage: the join
    rows of that stage and no other. *)
Lemma select_stage_found r d :
  NoDup (row_id <$> pipeline_stage d) -> r ∈ pipeline_stage d ->
  select_stage (row_pipeline_id r) (row_id r) d =
  join_rows (pipeline_stage_prerequisite d) r.
Proof.
  unfold select_stage.
  generalize (pipeline_stage_prerequisite d) as pres.
  generalize (pipeline_stage d) as stages.
  induction stages as [|a stages IH]; intros pres Hnd Hr.
  - by apply elem_of_nil in Hr.
  - rewrite fmap_cons in Hnd. apply NoDup_cons in Hnd as [Ha Hnd].
    unfold left_outer_join in *. rewrite bind_cons, filter_app.
    apply elem_of_cons in Hr as [->|Hr].
    + rewrite filter_all, filter_none, app_nil_r; [done| |].
      * intros x Hx%left_outer_join_stage [_ Hid]. apply Ha.
        rewrite <- Hid. by apply list_elem_of_fmap_2.
      * intros x Hx. by rewrite (join_rows_stage a pres x Hx).
    + rewrite filter_none; [by rewrite IH|].
      intros x Hx [_ Hid]. apply Ha.
      rewrite (join_rows_stage a pres x Hx) in Hid.
      rewrite Hid. by apply list_elem_of_fmap_2.
Qed.

Lemma LoadStage_scan_fold r qs :
  forall stage,
    fold_left LoadStage_scan ((λ q, (r, Some q)) <$> qs) stage =
    match qs with
    | [] => stage
    | _ => stage_of_row r
             (Prerequisites stage ++
              ((λ q, mkPrerequisite (pre_parameter q) (pre_expected_value q)) <$> qs))
    end.
Proof.
  induction qs as [|q qs IH]; intros stage; csimpl; [done|].
  rewrite IH. destruct qs as [|q' qs]; csimpl; [done|].
  unfold stage_of_row. f_equal. by rewrite <- app_assoc.
Qed.

(** The second half of C5: a stage that is stored is returned as stored,
    with the prerequisites of the table attached. *)
Lemma LoadStage_found r c :
  NoDup (row_id <$> pipeline_stage (data c)) ->
  r ∈ pipeline_stage (data c) ->
  (forall e fs, faults c ≠ Some e :: fs) ->
  (LoadStage (row_pipeline_id r) (row_id r) c).1 =
  Ok (stage_of_row r (prerequisites_of (row_id r) (data c))).
Proof.
  intros Hnd Hr Hf. unfold LoadStage, Query, engine.
  destruct (faults c) as [|[e|] fs] eqn:Hfc; simpl;
    try (by destruct (Hf e fs)).
  all: rewrite select_stage_found by done; unfold prerequisites_of, join_rows.
  all: destruct (filter _ (pipeline_stage_prerequisite (data c))) as [|q qs] eqn:Hq;
       [done|].
  all: by rewrite LoadStage_scan_fold.
Qed.

Lemma LoadStage_no_row pipelineID stageID c :
  select_stage pipelineID stageID (data c) = [] ->
  (forall e fs, faults c ≠ Some e :: fs) ->
  LoadStage pipelineID stageID c =
  (Ok zero_Stage,
   mkConn (data c) (tail (faults c)) (journal c ++ [SelectStage pipelineID stageID]) (now c)).
Proof.
  intros Hrows Hf. unfold LoadStage, Query, engine.
  destruct (faults c) as [|[e|] fs] eqn:Hfc; simpl; rewrite ?Hrows; try done.
  by destruct (Hf e fs).
Qed.

(** [ErrNoStage] is returned only when the engine itself answers the query
    with [sql.ErrNoRows], whatever the tables hold. *)
Lemma LoadStage_ErrNoStage pipelineID stageID c c' :
  LoadStage pipelineID stageID c = (Err ErrNoStage, c') ->
  exists fs, faults c = Some ErrNoRows :: fs ∨ faults c = Some ErrNoStage :: fs.
Proof.
  unfold LoadStage, Query, engine.
  destruct (faults c) as [|[e|] fs] eqn:Hfc; simpl; try done.
  exists fs. destruct e; simplify_eq/=; auto.
Qed.

(** C5 at the failing input.  Pipeline 1 has no stage 99: the query finds no
    row, which is not an error of [db.Query]; the loop body never runs and the
    zero-valued struct is returned with no error. *)
Theorem LoadStage_of_a_missing_stage :
  select_stage 1 99 db2 = [] ∧
  LoadStage 1 99 (conn db2) = (Ok zero_Stage, mkConn db2 [] [SelectStage 1 99] 200) ∧
  (LoadStage 1 11 (conn db2)).1 = Ok deploy2.
Proof. repeat split. Qed.

Lemma LoadStages_scan_fold rows :
  forall (st : gmap Z Stage * list Z),
    (forall ptr, ptr ∈ st.2 -> is_Some (st.1 !! ptr)) ->
    let st' := fold_left LoadStages_scan rows st in
    st'.2 = st.2 ++ ((λ x, row_id x.1) <$> rows) ∧
    (forall ptr, ptr ∈ st'.2 -> is_Some (st'.1 !! ptr)).
Proof.
  induction rows as [|x rows IH]; intros st Hst; simpl.
  - by rewrite app_nil_r.
  - destruct (IH (LoadStages_scan st x)) as [Hptr Hdom].
    + unfold LoadStages_scan. simpl.
      intros ptr [Hin| ->%list_elem_of_singleton]%elem_of_app.
      * destruct (decide (ptr = row_id x.1)) as [->|Hne].
        -- rewrite lookup_insert_eq. eauto.
        -- rewrite lookup_insert_ne by done. by apply Hst.
      * rewrite lookup_insert_eq. eauto.
    + split; [|done]. rewrite Hptr. simpl. by rewrite <- app_assoc.
Qed.

(** One struct per join row: a stage with [k > 0] prerequisite rows is
    returned [k] times. *)
Lemma LoadStages_length pipelineID c stages c' :
  LoadStages pipelineID c = (Ok stages, c') ->
  length stages = length (select_stages pipelineID (data c)).
Proof.
  unfold LoadStages, Query, bind, engine, ret.
  destruct (faults c) as [|[e|] fs]; simpl; try done.
  all: destruct (LoadStages_scan_fold (select_stages pipelineID (data c)) (∅, []))
         as [Hptr Hdom]; [by intros ? ?%elem_of_nil|].
  all: destruct (fold_left LoadStages_scan _ _) as [mapStages stagesPtr];
       simpl in *; intros [= <- _].
  all: rewrite <- (length_fmap (λ x, row_id x.1) (select_stages pipelineID (data c))).
  all: rewrite <- Hptr; clear Hptr.
  all: induction stagesPtr as [|ptr l IH]; simpl; [done|].
  all: destruct (Hdom ptr) as [s ->]; [by left|]; simpl.
  all: f_equal; apply IH; intros; apply Hdom; by right.
Qed.

(** C6 at the failing inputs.  Stage 11 has two prerequisite rows and comes
    back twice, each copy with both prerequisites; stage 10 of [db_dup] has
    the same pair stored twice and comes back (twice) with the pair twice.
    The build order and the pipeline id are not selected and stay zero. *)
Theorem LoadStages_repeats_stages :
  (LoadStages 1 (conn db2)).1 =
    Ok [mkStage 10 0 "build" 0 true [];
        mkStage 11 0 "deploy" 0 true (Prerequisites deploy2);
        mkStage 11 0 "deploy" 0 true (Prerequisites deploy2)] ∧
  (LoadStages 1 (conn db_dup)).1 =
    Ok [mkStage 10 0 "build" 0 true
          [mkPrerequisite "branch" "master"; mkPrerequisite "branch" "master"];
        mkStage 10 0 "build" 0 true
          [mkPrerequisite "branch" "master"; mkPrerequisite "branch" "master"]].
Proof. split; by vm_compute. Qed.

(** ** Layering the parameters of an action *)

Lemma filter_ext_in {A} (P Q : A -> Prop)
  `{!forall x, Decision (P x)} `{!forall x, Decision (Q x)} (l : list A) :
  (forall x, x ∈ l -> P x <-> Q x) -> filter P l = filter Q l.
Proof.
  induction l as [|a l IH]; [done|]. intros Hext.
  rewrite !filter_cons, IH by (intros x Hx; apply Hext; by right).
  assert (P a <-> Q a) by (apply Hext; by left).
  repeat case_decide; tauto || done.
Qed.

Lemma updateParamInList_found params p :
  updateParamInList params p = (bool_decide (Name p ∈ Name <$> params), params).
Proof.
  induction params as [|q params IH]; csimpl; [done|].
  destruct (decide (Name q = Name p)) as [Hq|Hq].
  - rewrite bool_decide_eq_true_2; [done|]. rewrite Hq. by left.
  - rewrite IH. f_equal. apply bool_decide_ext. rewrite elem_of_cons.
    split; [by right|]. intros [?|?]; [congruence|done].
Qed.

Lemma layer_cases overrides d :
  layer overrides d =
  if decide (Name d ∈ Name <$> overrides) then overrides else overrides ++ [d].
Proof.
  unfold layer. rewrite updateParamInList_found.
  case_decide; [by rewrite bool_decide_eq_true_2|by rewrite bool_decide_eq_false_2].
Qed.

Lemma fold_left_layer defaults :
  forall overrides,
    fold_left layer defaults overrides =
    overrides ++ unnamed_defaults (Name <$> overrides) defaults.
Proof.
  induction defaults as [|d defaults IH]; intros overrides; csimpl.
  - by rewrite app_nil_r.
  - rewrite IH, layer_cases. case_decide; [done|].
    by rewrite fmap_app, <- app_assoc.
Qed.

Lemma unnamed_defaults_NoDup names defaults :
  NoDup (Name <$> defaults) ->
  unnamed_defaults names defaults = filter (λ d, Name d ∉ names) defaults.
Proof.
  revert names. induction defaults as [|d defaults IH]; intros names Hnd; [done|].
  csimpl in *. apply NoDup_cons in Hnd as [Hd Hnd]. rewrite filter_cons.
  case_decide as Hin.
  - rewrite decide_False by tauto. by apply IH.
  - rewrite decide_True by done. f_equal. rewrite IH by done.
    apply filter_ext_in. intros x Hx. rewrite elem_of_app, list_elem_of_singleton.
    split; [tauto|]. intros Hn [?|Heq]; [done|].
    apply Hd. rewrite <- Heq. by apply list_elem_of_fmap_2.
Qed.

(** C9, as the code has it.  When the blob of the placement decodes to
    [overrides], the parameters of the action are the overrides in their
    order, followed by the parameters of the definition that no entry of the
    list names yet, in definition order: an override stands for the default
    of the same name, the other defaults pass through, and an override with
    no matching default stays where the blob has it. *)
Theorem action_parameters_layered json_Unmarshal id placement args a overrides :
  json_Unmarshal args = Some overrides ->
  exists act,
    loadPipelineStage_action json_Unmarshal id placement args a = Ok act ∧
    Action_Parameters act =
      overrides ++ unnamed_defaults (Name <$> overrides) (Action_Parameters a) ∧
    (NoDup (Name <$> Action_Parameters a) ->
     Action_Parameters act =
       overrides ++ filter (λ d, Name d ∉ Name <$> overrides) (Action_Parameters a)).
Proof.
  intros Hargs. unfold loadPipelineStage_action. rewrite Hargs.
  eexists. split; [reflexivity|]. simpl. rewrite fold_left_layer.
  split; [done|]. intros Hnd. by rewrite unnamed_defaults_NoDup.
Qed.

Lemma action_parameters_layered_witness :
  exists act,
    loadPipelineStage_action (λ _, Some [timeout60]) 11
      (mkAction 5 1 0 true []) "[timeout=60]" (mkAction 5 0 0 false [timeout30; retries1])
    = Ok act ∧
    Action_Parameters act = [timeout60; retries1].
Proof.
  destruct (action_parameters_layered (λ _, Some [timeout60]) 11
              (mkAction 5 1 0 true []) "[timeout=60]"
              (mkAction 5 0 0 false [timeout30; retries1]) [timeout60])
    as (act & Hact & Hparams & _).
  - reflexivity.
  - exists act. split; [exact Hact|]. rewrite Hparams. reflexivity.
Defined.

(** C9, as the specification words it, fails on the order.  With defaults
    timeout=30, retries=1 and the override retries=5 the code yields
    retries=5, timeout=30: the override first, not the definition order. *)
Lemma action_parameters_not_in_definition_order :
  layered_as_specified [timeout30; retries1] [retries5] = [timeout30; retries5] ∧
  loadPipelineStage_action (λ _, Some [retries5]) 11
    (mkAction 5 1 0 true []) "[retries=5]" (mkAction 5 0 0 false [timeout30; retries1])
  = Ok (mkAction 5 1 11 true [retries5; timeout30]) ∧
  [retries5; timeout30] ≠ layered_as_specified [timeout30; retries1] [retries5].
Proof. repeat split; try reflexivity. discriminate. Qed.

(** ** The substitution loop of the prerequisite check *)

Lemma fold_left_preserves {A B} (P : A -> Prop) (f : A -> B -> A) (l : list B) (a : A) :
  P a -> (forall a b, P a -> P (f a b)) -> P (fold_left f l a).
Proof.
  intros Ha Hf. revert a Ha. induction l as [|b l IH]; intros a Ha; simpl; auto.
Qed.

Lemma replace_at_names pbp st i :
  Name <$> (replace_at pbp st i).1 = Name <$> st.1.
Proof.
  unfold replace_at. destruct (st.1 !! i) as [q|] eqn:Hq; [|done]. simpl.
  rewrite list_fmap_insert. simpl. apply list_insert_id.
  by rewrite list_lookup_fmap, Hq.
Qed.

Lemma replace_with_names st k :
  Name <$> (replace_with st k).1 = Name <$> st.1.
Proof.
  unfold replace_with. destruct (st.1 !! k); [|done].
  apply (fold_left_preserves (λ st', Name <$> st'.1 = Name <$> st.1)); [done|].
  intros a b Ha. by rewrite replace_at_names.
Qed.

Lemma replace_pass_names ps : Name <$> (replace_pass ps).1 = Name <$> ps.
Proof.
  unfold replace_pass.
  apply (fold_left_preserves (λ st', Name <$> st'.1 = Name <$> ps)); [done|].
  intros a b Ha. by rewrite replace_with_names.
Qed.

Lemma resolve_names fuel :
  forall ps ps', resolve fuel ps = Some ps' -> Name <$> ps' = Name <$> ps.
Proof.
  induction fuel as [|fuel IH]; intros ps ps'; simpl; [done|].
  pose proof (replace_pass_names ps) as Hn.
  destruct (replace_pass ps) as [ps1 [|]]; simpl in *.
  - intros H%IH. congruence.
  - intros [= <-]. done.
Qed.

(** A pass that ends with [replaced] still false has changed no value. *)
Lemma replace_at_unchanged ps pbp st i :
  (st.2 = false -> st.1 = ps) ->
  (replace_at pbp st i).2 = false -> (replace_at pbp st i).1 = ps.
Proof.
  unfold replace_at. destruct (st.1 !! i) as [q|] eqn:Hq; [|done]. simpl.
  case_decide as Hv; [|done]. intros Hst Hfalse.
  rewrite Hv, <- (Hst Hfalse). apply list_insert_id. by destruct q.
Qed.

Lemma replace_with_unchanged ps st k :
  (st.2 = false -> st.1 = ps) ->
  (replace_with st k).2 = false -> (replace_with st k).1 = ps.
Proof.
  unfold replace_with. destruct (st.1 !! k) as [pbp|]; [|done]. intros Hst.
  apply (fold_left_preserves (λ st', st'.2 = false -> st'.1 = ps)); [done|].
  intros a b Ha. by apply replace_at_unchanged.
Qed.

Lemma replace_pass_unchanged ps :
  (replace_pass ps).2 = false -> (replace_pass ps).1 = ps.
Proof.
  unfold replace_pass.
  apply (fold_left_preserves (λ st', st'.2 = false -> st'.1 = ps)); [done|].
  intros a b Ha. by apply replace_with_unchanged.
Qed.

(** The bound does not matter once it lets the loop finish. *)
Lemma resolve_more_fuel fuel k :
  forall ps ps', resolve fuel ps = Some ps' -> resolve (fuel + k) ps = Some ps'.
Proof.
  induction fuel as [|fuel IH]; intros ps ps'; simpl; [done|].
  destruct (replace_pass ps) as [ps1 [|]]; [apply IH|done].
Qed.

Lemma resolve_deterministic fuel1 fuel2 ps ps1 ps2 :
  resolve fuel1 ps = Some ps1 -> resolve fuel2 ps = Some ps2 -> ps1 = ps2.
Proof.
  intros H1%(resolve_more_fuel _ fuel2) H2%(resolve_more_fuel _ fuel1).
  rewrite Nat.add_comm in H2. congruence.
Qed.

Lemma elements_insert (m : Memory) pb ps :
  elements (<[Parameters pb := ps]> m) pb = ps.
Proof. unfold elements. by rewrite lookup_insert_eq. Qed.

(** C7, as the code has it.  A call that returns is a function of the stage,
    the build and the parameter array (any other bound that lets the loop
    finish gives the same result and the same memory), but the build is not
    read-only: the array [pb.Parameters] points to is left holding the
    resolved values, the ones the check has run on.  Names, order and number
    of the parameters are as before, no other array is written, and the
    array is untouched when the first pass replaces nothing. *)
Theorem CheckPrerequisites_rewrites_the_build
  ProcessTriggerExpectedValue regexp_Match fuel s pb m r m' :
  CheckPrerequisites ProcessTriggerExpectedValue regexp_Match fuel s pb m = Some (r, m') ->
  (forall fuel2 r2 m2,
     CheckPrerequisites ProcessTriggerExpectedValue regexp_Match fuel2 s pb m
       = Some (r2, m2) -> r2 = r ∧ m2 = m') ∧
  resolve fuel (elements m pb) = Some (elements m' pb) ∧
  r = check_conditions ProcessTriggerExpectedValue regexp_Match pb m' (Prerequisites s) ∧
  Name <$> elements m' pb = Name <$> elements m pb ∧
  (forall a, a ≠ Parameters pb -> m' !! a = m !! a) ∧
  ((replace_pass (elements m pb)).2 = false -> m' = m).
Proof.
  unfold CheckPrerequisites.
  destruct (resolve fuel (elements m pb)) as [ps|] eqn:Hres; [|done].
  intros [= <- <-].
  assert (elements (match m !! Parameters pb with
                    | Some _ => <[Parameters pb := ps]> m
                    | None => m
                    end) pb = ps) as Hel.
  { destruct (m !! Parameters pb) as [ps0|] eqn:Hm; [apply elements_insert|].
    unfold elements in *. rewrite Hm in *. simpl in *.
    destruct fuel; simpl in Hres; [done|]. by simplify_eq/=. }
  repeat split.
  - destruct (resolve fuel2 (elements m pb)) as [ps2|] eqn:Hres2; [|done].
    simplify_eq/=. by rewrite (resolve_deterministic _ _ _ _ _ Hres2 Hres).
  - destruct (resolve fuel2 (elements m pb)) as [ps2|] eqn:Hres2; [|done].
    simplify_eq/=. by rewrite (resolve_deterministic _ _ _ _ _ Hres2 Hres).
  - by rewrite Hel.
  - rewrite Hel. by apply (resolve_names fuel).
  - intros a Ha. destruct (m !! Parameters pb); [|done].
    by rewrite lookup_insert_ne.
  - intros Hpass. destruct (m !! Parameters pb) as [ps0|] eqn:Hm; [|done].
    apply insert_id. rewrite Hm. f_equal.
    destruct fuel; simpl in Hres; [done|].
    pose proof (replace_pass_unchanged _ Hpass) as Hsame.
    destruct (replace_pass (elements m pb)) as [ps1 b]. simpl in *. subst.
    simplify_eq/=. unfold elements. by rewrite Hm.
Qed.

Lemma CheckPrerequisites_rewrites_the_build_witness :
  resolve 2 (elements memory_a_ref_b build_at_1) = Some (elements memory_a_x build_at_1) ∧
  Name <$> elements memory_a_x build_at_1 = Name <$> elements memory_a_ref_b build_at_1.
Proof.
  destruct (CheckPrerequisites_rewrites_the_build no_macro literal_Match 2
              stage_wants_a_x build_at_1 memory_a_ref_b (Ok true) memory_a_x)
    as (_ & Hres & _ & Hnames & _).
  - by vm_compute.
  - by split.
Defined.

(** C7, as the specification words it, fails: the build is not a read-only
    input.  The caller's build reads a = "{{.b}}" before the call and
    a = "x" after it, through the very same struct. *)
Lemma CheckPrerequisites_is_not_read_only :
  elements memory_a_ref_b build_at_1 = [param_a_ref_b; param_b_x] ∧
  CheckPrerequisites no_macro literal_Match 2 stage_wants_a_x build_at_1 memory_a_ref_b
    = Some (Ok true, memory_a_x) ∧
  elements memory_a_x build_at_1 = [param_a_x; param_b_x] ∧
  elements memory_a_x build_at_1 ≠ elements memory_a_ref_b build_at_1.
Proof. repeat split; try (by vm_compute). Qed.

(** *** A parameter that refers to itself *)

Lemma prefix_refl (s : string) : String.prefix s s = true.
Proof. induction s as [|a s IH]; simpl; [done|]. by destruct (ascii_dec a a). Qed.

Lemma replace_from_skip_all old new (s : string) :
  forall k, (String.length s <= k)%nat -> replace_from old new k s = EmptyString.
Proof.
  induction s as [|a s IH]; intros k Hk; simpl in *; [done|].
  destruct k as [|k]; [lia|]. apply IH. lia.
Qed.

Lemma append_empty_r (s : string) : s +:+ EmptyString = s.
Proof.
  induction s as [|a s IH]; [done|].
  change (String a (s +:+ EmptyString) = String a s). by rewrite IH.
Qed.

(** Replacing a non-empty string by itself in itself gives it back. *)
Lemma strings_Replace_self a (s : string) :
  strings_Replace (String a s) (String a s) (String a s) = String a s.
Proof.
  unfold strings_Replace.
  change (replace_from (String a s) (String a s) 0 (String a s))
    with (if String.prefix (String a s) (String a s)
          then String a s +:+
               replace_from (String a s) (String a s)
                            (String.length (String a s) - 1) s
          else String a (replace_from (String a s) (String a s) 0 s)).
  rewrite prefix_refl, replace_from_skip_all, append_empty_r; [done|].
  simpl. lia.
Qed.

Lemma self_reference_pass name :
  replace_pass [mkParameter name (placeholder name)]
  = ([mkParameter name (placeholder name)], false).
Proof.
  unfold replace_pass, replace_with, replace_at, placeholder. simpl.
  change ("{{." +:+ name +:+ "}}") with (String "{" ("{." +:+ name +:+ "}}")).
  rewrite strings_Replace_self. by rewrite decide_True.
Qed.

(** The loop ends at the first turn that replaces nothing. *)
Lemma resolve_unchanged ps k :
  (replace_pass ps).2 = false -> resolve (S k) ps = Some ps.
Proof.
  intros Hpass. pose proof (replace_pass_unchanged ps Hpass) as Hsame.
  cbn [resolve]. destruct (replace_pass ps) as [ps' b]. simpl in *. by subst.
Qed.

(** When the loop ends, a further pass replaces nothing. *)
Lemma resolve_stable fuel :
  forall ps ps', resolve fuel ps = Some ps' -> replace_pass ps' = (ps', false).
Proof.
  induction fuel as [|fuel IH]; intros ps ps'; simpl; [done|].
  destruct (replace_pass ps) as [ps1 [|]] eqn:Hpass; [apply IH|].
  intros [= <-].
  pose proof (replace_pass_unchanged ps) as Hsame. rewrite Hpass in Hsame.
  simpl in Hsame. specialize (Hsame eq_refl). subst ps1. done.
Qed.

(** *** A build without placeholders *)

Lemma replace_from_absent old new (s : string) :
  occurs old s = false -> replace_from old new 0 s = s.
Proof.
  induction s as [|ch s IH]; [done|]. intros Hocc.
  change (occurs old (String ch s))
    with (String.prefix old (String ch s) || occurs old s) in Hocc.
  apply orb_false_iff in Hocc as [Hp Hs].
  change (replace_from old new 0 (String ch s))
    with (if String.prefix old (String ch s)
          then new +:+ replace_from old new (String.length old - 1) s
          else String ch (replace_from old new 0 s)).
  rewrite Hp. by rewrite IH.
Qed.

Lemma replace_at_placeholder_free ps pbp i :
  (forall q, q ∈ ps -> occurs (placeholder (Name pbp)) (Value q) = false) ->
  replace_at pbp (ps, false) i = (ps, false).
Proof.
  intros Hfree. unfold replace_at. cbn [fst snd].
  destruct (ps !! i) as [q|] eqn:Hq; [|done].
  unfold strings_Replace.
  rewrite replace_from_absent by (apply Hfree; by eapply list_elem_of_lookup_2).
  rewrite decide_True by done. f_equal. apply list_insert_id. by destruct q.
Qed.

Lemma replace_pass_placeholder_free ps :
  placeholder_free ps -> replace_pass ps = (ps, false).
Proof.
  intros Hfree. unfold replace_pass.
  apply (fold_left_preserves (λ st, st = (ps, false))); [done|].
  intros st k ->. unfold replace_with. cbn [fst].
  destruct (ps !! k) as [pbp|] eqn:Hk; [|done].
  apply (fold_left_preserves (λ st, st = (ps, false))); [done|].
  intros st i ->. apply replace_at_placeholder_free.
  intros q Hq. apply Hfree; [by eapply list_elem_of_lookup_2|done].
Qed.

(** *** A value that holds its own placeholder and more *)

Lemma append_cons a (s t : string) : String a s +:+ t = String a (s +:+ t).
Proof. reflexivity. Qed.

Lemma length_append (s t : string) :
  String.length (s +:+ t) = (String.length s + String.length t)%nat.
Proof.
  induction s as [|a s IH]; [done|]. rewrite append_cons. simpl. by rewrite IH.
Qed.

Lemma append_assoc (s t u : string) : (s +:+ t) +:+ u = s +:+ (t +:+ u).
Proof.
  induction s as [|a s IH]; [done|]. rewrite !append_cons. by rewrite IH.
Qed.

Lemma prefix_append (s t : string) : String.prefix s (s +:+ t) = true.
Proof.
  induction s as [|a s IH]; [by destruct t|].
  rewrite append_cons. simpl. by destruct (ascii_dec a a).
Qed.

Lemma replace_from_skip old new (u t : string) :
  replace_from old new (String.length u) (u +:+ t) = replace_from old new 0 t.
Proof.
  induction u as [|a u IH]; [done|]. rewrite append_cons. simpl. apply IH.
Qed.

(** An occurrence at the head is replaced, and the rest goes on after it. *)
Lemma replace_from_head a (u t new : string) :
  replace_from (String a u) new 0 (String a u +:+ t)
  = new +:+ replace_from (String a u) new 0 t.
Proof.
  rewrite append_cons.
  change (replace_from (String a u) new 0 (String a (u +:+ t)))
    with (if String.prefix (String a u) (String a (u +:+ t))
          then new +:+ replace_from (String a u) new (String.length (String a u) - 1)
                                    (u +:+ t)
          else String a (replace_from (String a u) new 0 (u +:+ t))).
  rewrite <- (append_cons a u t) at 1. rewrite prefix_append.
  replace (String.length (String a u) - 1)%nat with (String.length u)
    by (simpl; lia).
  by rewrite replace_from_skip.
Qed.

(** No placeholder starts in a text without opening brace. *)
Lemma replace_from_brace_free (u new s rest : string) :
  brace_free s = true ->
  replace_from (String "{" u) new 0 (s +:+ rest)
  = s +:+ replace_from (String "{" u) new 0 rest.
Proof.
  induction s as [|ch s IH]; [done|]. intros Hs.
  change (brace_free (String ch s))
    with (negb (Ascii.eqb ch "{") && brace_free s) in Hs.
  apply andb_true_iff in Hs as [Hch Hs].
  rewrite !append_cons.
  change (replace_from (String "{" u) new 0 (String ch (s +:+ rest)))
    with (if String.prefix (String "{" u) (String ch (s +:+ rest))
          then new +:+ replace_from (String "{" u) new
                                    (String.length (String "{" u) - 1) (s +:+ rest)
          else String ch (replace_from (String "{" u) new 0 (s +:+ rest))).
  assert (String.prefix (String "{" u) (String ch (s +:+ rest)) = false) as ->.
  { cbn [String.prefix]. destruct (ascii_dec "{" ch) as [<-|]; [|done].
    by rewrite Ascii.eqb_refl in Hch. }
  by rewrite IH.
Qed.

Lemma brace_free_append (s t : string) :
  brace_free s = true -> brace_free t = true -> brace_free (s +:+ t) = true.
Proof.
  induction s as [|ch s IH]; [done|]. intros Hs Ht.
  change (brace_free (String ch s))
    with (negb (Ascii.eqb ch "{") && brace_free s) in Hs.
  apply andb_true_iff in Hs as [Hch Hs]. rewrite append_cons.
  change (negb (Ascii.eqb ch "{") && brace_free (s +:+ t) = true).
  rewrite Hch. by apply IH.
Qed.

Lemma replace_from_nonempty old new (t : string) :
  t ≠ EmptyString -> new ≠ EmptyString -> replace_from old new 0 t ≠ EmptyString.
Proof.
  destruct t as [|c t]; [done|]. intros _ Hnew.
  change (replace_from old new 0 (String c t))
    with (if String.prefix old (String c t)
          then new +:+ replace_from old new (String.length old - 1) t
          else String c (replace_from old new 0 t)).
  destruct (String.prefix old (String c t)); [|done].
  destruct new as [|b new]; [done|]. by rewrite append_cons.
Qed.

Lemma append_nonempty (s t : string) :
  s ≠ EmptyString ∨ t ≠ EmptyString -> s +:+ t ≠ EmptyString.
Proof.
  intros [Hs|Ht]; destruct s; try done.
Qed.

Lemma strings_Replace_after_brace_free name (new s t : string) :
  brace_free s = true ->
  strings_Replace (s +:+ placeholder name +:+ t) (placeholder name) new
  = s +:+ (new +:+ replace_from (placeholder name) new 0 t).
Proof.
  intros Hs. unfold strings_Replace.
  change (placeholder name) with (String "{" ("{." +:+ name +:+ "}}")).
  rewrite replace_from_brace_free by done. by rewrite replace_from_head.
Qed.

(** One pass on a build whose only parameter holds its own placeholder
    between a text without opening brace and any text, one of them not
    empty: the value is replaced by a longer one of the same shape. *)
Lemma self_reference_with_more_text_pass name (s t : string) :
  brace_free s = true ->
  s ≠ EmptyString ∨ t ≠ EmptyString ->
  exists s' t',
    brace_free s' = true ∧
    (s' ≠ EmptyString ∨ t' ≠ EmptyString) ∧
    replace_pass [mkParameter name (s +:+ placeholder name +:+ t)]
    = ([mkParameter name (s' +:+ placeholder name +:+ t')], true).
Proof.
  intros Hs Hst.
  set (v := s +:+ placeholder name +:+ t).
  set (R := replace_from (placeholder name) v 0 t).
  assert (v ≠ EmptyString) as Hv.
  { unfold v. apply append_nonempty. right. unfold placeholder. by rewrite append_cons. }
  exists (s +:+ s), (t +:+ R). split; [by apply brace_free_append|]. split.
  { destruct Hst as [Hs'|Ht]; [left|right]; apply append_nonempty; by left. }
  unfold replace_pass, replace_with, replace_at. simpl.
  fold v.
  assert (strings_Replace v (placeholder name) v = s +:+ (v +:+ R)) as Hrep.
  { exact (strings_Replace_after_brace_free name v s t Hs). }
  rewrite Hrep.
  assert (s +:+ (v +:+ R) ≠ v) as Hne.
  { intros Heq. apply (f_equal String.length) in Heq.
    rewrite !length_append in Heq.
    assert (String.length s + String.length R ≠ 0)%nat as Hpos.
    { destruct Hst as [Hs'|Ht].
      - destruct s; [done|]. simpl. lia.
      - assert (R ≠ EmptyString) as HR by (by apply replace_from_nonempty).
        destruct R; [done|]. simpl. lia. }
    lia. }
  rewrite decide_False by done. do 3 f_equal.
  unfold v. by rewrite !append_assoc.
Qed.

(** No number of turns ends the loop on such a build. *)
Lemma self_reference_with_more_text_never_ends name fuel :
  forall s t : string,
    brace_free s = true ->
    s ≠ EmptyString ∨ t ≠ EmptyString ->
    resolve fuel [mkParameter name (s +:+ placeholder name +:+ t)] = None.
Proof.
  induction fuel as [|fuel IH]; intros s t Hs Hst; [done|].
  cbn [resolve].
  destruct (self_reference_with_more_text_pass name s t Hs Hst)
    as (s' & t' & Hs' & Hst' & ->).
  by apply IH.
Qed.

(** *** References to other parameters *)

Lemma brace_free_absent (u s : string) :
  brace_free s = true -> occurs (String "{" u) s = false.
Proof.
  induction s as [|ch s IH]; [done|]. intros Hs.
  change (brace_free (String ch s))
    with (negb (Ascii.eqb ch "{") && brace_free s) in Hs.
  apply andb_true_iff in Hs as [Hch Hs].
  change (occurs (String "{" u) (String ch s))
    with (String.prefix (String "{" u) (String ch s) || occurs (String "{" u) s).
  rewrite IH by done. rewrite orb_false_r. cbn [String.prefix].
  destruct (ascii_dec "{" ch) as [<-|]; [|done].
  by rewrite Ascii.eqb_refl in Hch.
Qed.

Lemma occurs_refl (s : string) : occurs s s = true.
Proof. destruct s; [done|]. unfold occurs; fold occurs. by rewrite prefix_refl. Qed.

(** A value that is one placeholder becomes the value put for it. *)
Lemma strings_Replace_whole a (u new : string) :
  strings_Replace (String a u) (String a u) new = new.
Proof.
  unfold strings_Replace.
  rewrite <- (append_empty_r (String a u)) at 2.
  rewrite replace_from_head. apply append_empty_r.
Qed.

Lemma strings_Replace_absent (s old new : string) :
  occurs old s = false -> strings_Replace s old new = s.
Proof. apply replace_from_absent. Qed.

(* One assignment of the inner loop, with the replacement worked out. *)
Lemma replace_at_value pbp ps b i q v :
  ps !! i = Some q ->
  strings_Replace (Value q) (placeholder (Name pbp)) (Value pbp) = v ->
  replace_at pbp (ps, b) i
  = (<[i := mkParameter (Name q) v]> ps, if decide (v = Value q) then b else true).
Proof. intros Hq Hv. unfold replace_at. cbn [fst snd]. by rewrite Hq, Hv. Qed.

(** {a: "{{.b}}", b: x}: the first pass puts [x] for the placeholder, when
    the placeholder of [a] does not occur in that of [b] and [x] holds no
    opening brace. *)
Lemma reference_pass a b (x : string) :
  occurs (placeholder a) (placeholder b) = false ->
  brace_free x = true ->
  replace_pass [mkParameter a (placeholder b); mkParameter b x]
  = ([mkParameter a x; mkParameter b x], true).
Proof.
  intros Hab Hx.
  assert (forall n, occurs (placeholder n) x = false) as Habsent
    by (intros n; by apply brace_free_absent).
  assert (x ≠ placeholder b) as Hne.
  { intros ->. specialize (Habsent b). by rewrite occurs_refl in Habsent. }
  unfold replace_pass, replace_with. cbn [length seq fold_left fst].
  change ([mkParameter a (placeholder b); mkParameter b x] !! 0%nat)
    with (Some (mkParameter a (placeholder b))). cbn iota.
  cbn [length seq fold_left].
  rewrite (replace_at_value _ _ _ 0 (mkParameter a (placeholder b)) (placeholder b))
    by (try done; by apply strings_Replace_absent).
  rewrite decide_True by done. cbn [insert list_insert Name Value].
  rewrite (replace_at_value _ _ _ 1 (mkParameter b x) x)
    by (try done; by apply strings_Replace_absent).
  rewrite decide_True by done. cbn [insert list_insert Name Value fst].
  change ([mkParameter a (placeholder b); mkParameter b x] !! 1%nat)
    with (Some (mkParameter b x)). cbn iota.
  cbn [length seq fold_left].
  rewrite (replace_at_value _ _ _ 0 (mkParameter a (placeholder b)) x)
    by (try done; apply strings_Replace_whole).
  rewrite decide_False by done. cbn [insert list_insert Name Value].
  rewrite (replace_at_value _ _ _ 1 (mkParameter b x) x)
    by (try done; by apply strings_Replace_absent).
  by rewrite decide_True by done.
Qed.

Lemma brace_free_values_placeholder_free (ps : list Parameter') :
  Forall (λ p, brace_free (Value p) = true) ps -> placeholder_free ps.
Proof.
  intros Hall p q _ Hq. apply brace_free_absent.
  by apply (proj1 (Forall_forall _ _) Hall).
Qed.

Lemma reference_resolved a b (x : string) k :
  occurs (placeholder a) (placeholder b) = false ->
  brace_free x = true ->
  resolve (2 + k) [mkParameter a (placeholder b); mkParameter b x]
  = Some [mkParameter a x; mkParameter b x].
Proof.
  intros Hab Hx. change (2 + k)%nat with (S (S k)). cbn [resolve].
  rewrite reference_pass by done.
  rewrite replace_pass_placeholder_free; [done|].
  apply brace_free_values_placeholder_free. by repeat constructor.
Qed.

(** {a: "{{.b}}", b: "{{.c}}", c: x}: the first pass carries [x] through
    both references. *)
Lemma chain_pass a b c (x : string) :
  occurs (placeholder a) (placeholder b) = false ->
  occurs (placeholder a) (placeholder c) = false ->
  occurs (placeholder b) (placeholder c) = false ->
  brace_free x = true ->
  replace_pass [mkParameter a (placeholder b); mkParameter b (placeholder c);
                mkParameter c x]
  = ([mkParameter a x; mkParameter b x; mkParameter c x], true).
Proof.
  intros Hab Hac Hbc Hx.
  assert (forall n, occurs (placeholder n) x = false) as Habsent
    by (intros n; by apply brace_free_absent).
  assert (x ≠ placeholder c) as Hxc.
  { intros ->. specialize (Habsent c). by rewrite occurs_refl in Habsent. }
  assert (placeholder c ≠ placeholder b) as Hcb.
  { intros Heq. rewrite <- Heq in Hbc. by rewrite occurs_refl in Hbc. }
  unfold replace_pass, replace_with. cbn [length seq fold_left fst].
  (* pbp is a *)
  change ([mkParameter a (placeholder b); mkParameter b (placeholder c);
           mkParameter c x] !! 0%nat)
    with (Some (mkParameter a (placeholder b))). cbn iota.
  cbn [length seq fold_left].
  rewrite (replace_at_value _ _ _ 0 (mkParameter a (placeholder b)) (placeholder b))
    by (try done; by apply strings_Replace_absent).
  rewrite decide_True by done. cbn [insert list_insert Name Value].
  rewrite (replace_at_value _ _ _ 1 (mkParameter b (placeholder c)) (placeholder c))
    by (try done; by apply strings_Replace_absent).
  rewrite decide_True by done. cbn [insert list_insert Name Value].
  rewrite (replace_at_value _ _ _ 2 (mkParameter c x) x)
    by (try done; by apply strings_Replace_absent).
  rewrite decide_True by done. cbn [insert list_insert Name Value fst].
  (* pbp is b *)
  change ([mkParameter a (placeholder b); mkParameter b (placeholder c);
           mkParameter c x] !! 1%nat)
    with (Some (mkParameter b (placeholder c))). cbn iota.
  cbn [length seq fold_left].
  rewrite (replace_at_value _ _ _ 0 (mkParameter a (placeholder b)) (placeholder c))
    by (try done; apply strings_Replace_whole).
  rewrite decide_False by done. cbn [insert list_insert Name Value].
  rewrite (replace_at_value _ _ _ 1 (mkParameter b (placeholder c)) (placeholder c))
    by (try done; by apply strings_Replace_absent).
  rewrite decide_True by done. cbn [insert list_insert Name Value].
  rewrite (replace_at_value _ _ _ 2 (mkParameter c x) x)
    by (try done; by apply strings_Replace_absent).
  rewrite decide_True by done. cbn [insert list_insert Name Value fst].
  (* pbp is c *)
  change ([mkParameter a (placeholder c); mkParameter b (placeholder c);
           mkParameter c x] !! 2%nat)
    with (Some (mkParameter c x)). cbn iota.
  cbn [length seq fold_left].
  rewrite (replace_at_value _ _ _ 0 (mkParameter a (placeholder c)) x)
    by (try done; apply strings_Replace_whole).
  rewrite decide_False by done. cbn [insert list_insert Name Value].
  rewrite (replace_at_value _ _ _ 1 (mkParameter b (placeholder c)) x)
    by (try done; apply strings_Replace_whole).
  rewrite decide_False by done. cbn [insert list_insert Name Value].
  rewrite (replace_at_value _ _ _ 2 (mkParameter c x) x)
    by (try done; by apply strings_Replace_absent).
  by rewrite decide_True by done.
Qed.

Lemma chain_resolved a b c (x : string) k :
  occurs (placeholder a) (placeholder b) = false ->
  occurs (placeholder a) (placeholder c) = false ->
  occurs (placeholder b) (placeholder c) = false ->
  brace_free x = true ->
  resolve (2 + k) [mkParameter a (placeholder b); mkParameter b (placeholder c);
                   mkParameter c x]
  = Some [mkParameter a x; mkParameter b x; mkParameter c x].
Proof.
  intros Hab Hac Hbc Hx. change (2 + k)%nat with (S (S k)). cbn [resolve].
  rewrite chain_pass by done.
  rewrite replace_pass_placeholder_free; [done|].
  apply brace_free_values_placeholder_free. by repeat constructor.
Qed.

(** C8, as the code has it.  The loop of [CheckPrerequisites] repeats full
    passes until one changes no value, and has no bound.  Whenever it ends,
    the names are those of before and a further pass replaces nothing.  It
    ends with the first pass, the values untouched, on every build in which
    no value holds the placeholder of a parameter of the build, and on a
    parameter of any name whose value is its own placeholder: the
    placeholder is replaced by itself, no value changes and [replaced] stays
    false.  References are resolved, also through another reference:
    {a: "{{.b}}", b: x} is rewritten to {a: x, b: x} and
    {a: "{{.b}}", b: "{{.c}}", c: x} to {a: x, b: x, c: x} in the first turn
    and the second finds nothing to replace, for all names of which no
    placeholder occurs in the placeholder of a later one and every [x]
    without opening brace; on {a: "{{.b}}", b: "x"} the check then runs on
    the rewritten array.  But the loop does not always end: on a parameter
    whose value holds its own placeholder after a text without opening brace
    and before any text, one of the two not empty, every turn makes the value
    longer, no number of turns ends the loop and the check never returns. *)
Theorem placeholder_substitution_converges :
  (forall fuel ps ps',
     resolve fuel ps = Some ps' ->
     Name <$> ps' = Name <$> ps ∧ replace_pass ps' = (ps', false)) ∧
  (forall ps k, placeholder_free ps -> resolve (1 + k) ps = Some ps) ∧
  (forall name k,
     replace_pass [mkParameter name (placeholder name)]
     = ([mkParameter name (placeholder name)], false) ∧
     resolve (1 + k) [mkParameter name (placeholder name)]
     = Some [mkParameter name (placeholder name)]) ∧
  (forall a b (x : string) k,
     occurs (placeholder a) (placeholder b) = false ->
     brace_free x = true ->
     resolve (2 + k) [mkParameter a (placeholder b); mkParameter b x]
     = Some [mkParameter a x; mkParameter b x]) ∧
  (forall a b c (x : string) k,
     occurs (placeholder a) (placeholder b) = false ->
     occurs (placeholder a) (placeholder c) = false ->
     occurs (placeholder b) (placeholder c) = false ->
     brace_free x = true ->
     resolve (2 + k) [mkParameter a (placeholder b); mkParameter b (placeholder c);
                      mkParameter c x]
     = Some [mkParameter a x; mkParameter b x; mkParameter c x]) ∧
  (forall k, resolve (2 + k) [param_a_ref_b; param_b_x] = Some [param_a_x; param_b_x]) ∧
  (forall ProcessTriggerExpectedValue regexp_Match k s,
     CheckPrerequisites ProcessTriggerExpectedValue regexp_Match (2 + k) s
                        build_at_1 memory_a_ref_b
     = Some (check_conditions ProcessTriggerExpectedValue regexp_Match
                              build_at_1 memory_a_x (Prerequisites s),
             memory_a_x)) ∧
  (forall ProcessTriggerExpectedValue regexp_Match k s,
     CheckPrerequisites ProcessTriggerExpectedValue regexp_Match (1 + k) s
                        build_at_1 memory_a_ref_a
     = Some (check_conditions ProcessTriggerExpectedValue regexp_Match
                              build_at_1 memory_a_ref_a (Prerequisites s),
             memory_a_ref_a)) ∧
  (forall k, resolve (2 + k) [param_a_ref_b; param_b_ref_c; param_c_x]
             = Some [param_a_x; param_b_x; param_c_x]) ∧
  (forall name (s t : string) fuel,
     brace_free s = true ->
     s ≠ EmptyString ∨ t ≠ EmptyString ->
     resolve fuel [mkParameter name (s +:+ placeholder name +:+ t)] = None).
Proof.
  split; [|split; [|split; [|split; [|split; [|split; [|split; [|split; [|split]]]]]]]].
  - intros fuel ps ps' Hres. split; [by eapply resolve_names|by eapply resolve_stable].
  - intros ps k Hfree. apply resolve_unchanged.
    by rewrite replace_pass_placeholder_free.
  - intros name k. split; [apply self_reference_pass|].
    apply resolve_unchanged. by rewrite self_reference_pass.
  - intros a b x k. apply reference_resolved.
  - intros a b c x k. apply chain_resolved.
  - intros k. by apply (reference_resolved "a" "b" "x" k).
  - intros PTEV RM k s. unfold CheckPrerequisites.
    change (elements memory_a_ref_b build_at_1) with [param_a_ref_b; param_b_x].
    change [param_a_ref_b; param_b_x]
      with [mkParameter "a" (placeholder "b"); mkParameter "b" "x"].
    by rewrite (reference_resolved "a" "b" "x" k).
  - intros PTEV RM k s. by vm_compute.
  - intros k. by apply (chain_resolved "a" "b" "c" "x" k).
  - intros name s t fuel. apply self_reference_with_more_text_never_ends.
Qed.

Lemma placeholder_substitution_converges_witness :
  resolve 1 [param_a_x; param_b_x] = Some [param_a_x; param_b_x] ∧
  resolve 2 [mkParameter "branch" "{{.git.branch}}"; mkParameter "git.branch" "master"]
  = Some [mkParameter "branch" "master"; mkParameter "git.branch" "master"] ∧
  resolve 7 [param_a_x_ref_a] = None.
Proof.
  destruct placeholder_substitution_converges
    as (_ & Hfree & _ & Href & _ & _ & _ & _ & _ & Hloop).
  split; [|split].
  - apply (Hfree [param_a_x; param_b_x] 0%nat).
    intros p q Hp Hq.
    apply elem_of_cons in Hp as [-> |Hp]; [|apply list_elem_of_singleton in Hp as ->];
      (apply elem_of_cons in Hq as [-> |Hq]; [|apply list_elem_of_singleton in Hq as ->]);
      reflexivity.
  - apply (Href "branch" "git.branch" "master" 0%nat); reflexivity.
  - apply (Hloop "a" "x" "" 7%nat); [reflexivity|]. left. discriminate.
Defined.

(** C8, as the specification words it, fails: the loop does not always
    terminate.  On {a: "{{.a}}x"} and on {a: "x{{.a}}"} no number of turns
    ends it, and the check of a stage on such a build never returns. *)
Lemma placeholder_substitution_does_not_end :
  (forall fuel, resolve fuel [param_a_ref_a_x] = None) ∧
  (forall fuel, resolve fuel [param_a_x_ref_a] = None) ∧
  (forall ProcessTriggerExpectedValue regexp_Match fuel s,
     CheckPrerequisites ProcessTriggerExpectedValue regexp_Match fuel s
                        build_at_1 memory_a_ref_a_x = None).
Proof.
  assert (forall fuel, resolve fuel [param_a_ref_a_x] = None) as Hsuffix.
  { intros fuel.
    apply (self_reference_with_more_text_never_ends "a" fuel "" "x"); [done|].
    by right. }
  split; [done|]. split.
  - intros fuel.
    apply (self_reference_with_more_text_never_ends "a" fuel "x" ""); [done|].
    by left.
  - intros PTEV RM fuel s. unfold CheckPrerequisites.
    change (elements memory_a_ref_a_x build_at_1) with [param_a_ref_a_x].
    by rewrite Hsuffix.
Qed.

(** ** Why each condition on the operations is needed *)

(** The store inserts at whatever build order the struct carries. *)
Example InsertStage_at_any_build_order :
  build_orders 1 (data (InsertStage (mkStage 0 1 "notify" 7 false []) (conn db2)).2)
  = [1; 2; 7].
Proof. reflexivity. Qed.

(** The shift of a deletion starts from the build order of the struct, not
    from the stored one: with a struct that says 2 for the stage stored at
    1, the stage left behind keeps build order 2. *)
Example DeleteStageByID_with_a_stale_struct :
  (DeleteStageByID (mkStage 10 1 "build" 2 true []) 42 (conn db2)).1 = Ok tt ∧
  build_orders 1 (data (DeleteStageByID (mkStage 10 1 "build" 2 true []) 42 (conn db2)).2)
  = [2].
Proof. split; reflexivity. Qed.

(** Deletion renumbering: deleting the stage at build order 2 of a pipeline of
    four stages leaves the stages that stood at 3 and 4 at 2 and 3, and the
    stage at 1 where it was. *)
Example DeleteStageByID_renumbers :
  pipeline_stage (data (DeleteStageByID (mkStage 11 1 "test" 2 true []) 42 (conn db4)).2)
  = [mkStageRow 10 1 "build" 1 true; mkStageRow 12 2 "other" 1 true;
     mkStageRow 13 1 "package" 2 true; mkStageRow 14 1 "deploy" 3 true].
Proof. reflexivity. Qed.

(** [DeleteStageByID] opens no transaction.  When the engine refuses its
    last statement, the shift, the stage row is gone and the gap stays: of
    the four stages of pipeline 1 those at 1, 3 and 4 are left, and the next
    insert, which appends at count + 1 = 4, succeeds and leaves two stages at
    build order 4.  Hence the rollback by the caller of a delete that
    fails. *)
Example DeleteStageByID_refused_at_its_shift :
  let c := mkConn db4 [None; None; None; None; Some (ErrEngine 9)] [] 200 in
  let c1 := (DeleteStageByID (mkStage 11 1 "test" 2 true []) 42 c).2 in
  let c2 := (InsertStage (mkStage 0 1 "notify" 4 false []) c1).2 in
  (DeleteStageByID (mkStage 11 1 "test" 2 true []) 42 c).1 = Err (ErrEngine 9) ∧
  build_orders 1 (data c1) = [1; 3; 4] ∧
  count_stages 1 (data c1) + 1 = 4 ∧
  (InsertStage (mkStage 0 1 "notify" 4 false []) c1).1
    = Ok (mkStage 15 1 "notify" 4 true []) ∧
  build_orders 1 (data c2) = [1; 3; 4; 4].
Proof. repeat split; reflexivity. Qed.

(** The shift of a move starts from the build order of the struct as well:
    with a struct that says 1 for the stage stored at 4, moving it to 2
    leaves two stages at build order 1. *)
Example MoveStage_with_a_stale_struct :
  (MoveStage (mkStage 14 1 "deploy" 1 true []) 2 (conn db4)).1
    = Ok (mkStage 14 1 "deploy" 2 true []) ∧
  build_orders 1 (data (MoveStage (mkStage 14 1 "deploy" 1 true []) 2 (conn db4)).2)
  = [1; 1; 3; 2].
Proof. split; reflexivity. Qed.
